(** * mss_transmeta: the remapping relay, its timer and its utilities

    A shallow embedding of [mss_transmeta.core.util] (task_timer, AttribDict,
    Version) and of [mss_transmeta.core.client] (TransMetaClient), followed
    by the properties of the specification that were checked against it.

    Python values are modelled by their mathematical content: [int] is [Z],
    [str] is [string] (one character per code point below 256), a [float]
    is the rational [Q] it stands for, with the rounding of its arithmetic
    written out where the timer depends on it, a [dict] is a [gmap], a
    [tuple] or [list] is a [list].  A call that may raise returns a
    [result]; a method that mutates its object threads the object through a
    small state-and-exception monad. *)

From Stdlib Require Import ZArith QArith Qround Qpower String Ascii List Lia.
From stdpp Require Import base gmap strings list.

Local Close Scope Q_scope.
Local Open Scope string_scope.
Local Open Scope list_scope.
Local Open Scope Z_scope.

(* ===================================================================== *)
(** * Python prelude: exceptions, results, strings                        *)
(* ===================================================================== *)

Module Py.

(** The exception classes that the embedded code can raise or catch. *)
Inductive Exn : Type :=
| KeyError (key : list string)
| IndexError
| ValueError (msg : string)
| TypeError (msg : string)
| AttributeError (msg : string)
| NotImplementedError (msg : string)
| ZeroDivisionError
| FileNotFoundError (path : string)
| OtherError (msg : string).

(** Outcome of a call: a returned value or a raised exception. *)
Inductive result (A : Type) : Type :=
| Ok (a : A)
| Raise (e : Exn).
Arguments Ok {A} a.
Arguments Raise {A} e.

Definition rbind {A B} (r : result A) (k : A -> result B) : result B :=
  match r with
  | Ok a => k a
  | Raise e => Raise e
  end.

Definition is_ok {A} (r : result A) : bool :=
  match r with Ok _ => true | Raise _ => false end.

(** [s.split(sep)] for a one-character separator and
    [re.split('[...]', s)] for a one-character class: every character
    satisfying [p] ends a piece; the result is never empty. *)
Fixpoint split_on (p : ascii -> bool) (s : string) : list string :=
  match s with
  | EmptyString => [EmptyString]
  | String c rest =>
      if p c then EmptyString :: split_on p rest
      else match split_on p rest with
           | w :: ws => String c w :: ws
           | [] => [String c EmptyString]
           end
  end.

Definition str_split (sep : ascii) (s : string) : list string :=
  split_on (Ascii.eqb sep) s.

(** [sep.join(parts)]. *)
Fixpoint str_join (sep : string) (parts : list string) : string :=
  match parts with
  | [] => ""
  | [p] => p
  | p :: ps => (p ++ sep ++ str_join sep ps)%string
  end.

(** [s.replace(c, '')] for a one-character [c]. *)
Fixpoint str_remove (c : ascii) (s : string) : string :=
  match s with
  | EmptyString => EmptyString
  | String a rest =>
      if Ascii.eqb a c then str_remove c rest else String a (str_remove c rest)
  end.

Definition is_digit (c : ascii) : bool :=
  let n := nat_of_ascii c in (48 <=? n)%nat && (n <=? 57)%nat.

Definition is_letter (c : ascii) : bool :=
  let n := nat_of_ascii c in
  ((65 <=? n)%nat && (n <=? 90)%nat) || ((97 <=? n)%nat && (n <=? 122)%nat).

Fixpoint all_chars (p : ascii -> bool) (s : string) : bool :=
  match s with
  | EmptyString => true
  | String c rest => p c && all_chars p rest
  end.

(** [s.isdigit()]: at least one character and all of them digits. *)
Definition isdigit (s : string) : bool :=
  match s with
  | EmptyString => false
  | _ => all_chars is_digit s
  end.

Fixpoint int_acc (acc : Z) (s : string) : Z :=
  match s with
  | EmptyString => acc
  | String c rest => int_acc (10 * acc + (Z.of_nat (nat_of_ascii c) - 48)) rest
  end.

(** [int(s)] on a string for which [isdigit] holds. *)
Definition py_int (s : string) : Z := int_acc 0 s.

(** [seq[i]] on a list: IndexError when out of range. *)
Definition index {A} (l : list A) (i : nat) : result A :=
  match l !! i with
  | Some x => Ok x
  | None => Raise IndexError
  end.

(** [s[i]] on a str: the one-character string at [i]. *)
Definition str_index (s : string) (i : nat) : result string :=
  match String.get i s with
  | Some c => Ok (String c EmptyString)
  | None => Raise IndexError
  end.

Fixpoint min_from (m : Z) (l : list Z) : Z :=
  match l with
  | [] => m
  | x :: xs => min_from (if x <? m then x else m) xs
  end.

Fixpoint max_from (m : Z) (l : list Z) : Z :=
  match l with
  | [] => m
  | x :: xs => max_from (if m <? x then x else m) xs
  end.

(** [min(l)] and [max(l)]: ValueError on an empty list. *)
Definition py_min (l : list Z) : result Z :=
  match l with
  | [] => Raise (ValueError "min() arg is an empty sequence")
  | x :: xs => Ok (min_from x xs)
  end.

Definition py_max (l : list Z) : result Z :=
  match l with
  | [] => Raise (ValueError "max() arg is an empty sequence")
  | x :: xs => Ok (max_from x xs)
  end.

Definition startswith (c : ascii) (s : string) : bool :=
  match s with
  | String a _ => Ascii.eqb a c
  | EmptyString => false
  end.

Fixpoint endswith (c : ascii) (s : string) : bool :=
  match s with
  | EmptyString => false
  | String a EmptyString => Ascii.eqb a c
  | String _ rest => endswith c rest
  end.

(** [os.path.join(a, b)] (posix). *)
Definition os_path_join (a b : string) : string :=
  if startswith "/" b then b
  else if (match a with EmptyString => true | _ => false end) || endswith "/" a
       then (a ++ b)%string
       else (a ++ "/" ++ b)%string.

(** Logging: the records a logger receives, oldest first. *)
Inductive level : Type := DEBUG | INFO | ERROR.

(** A computation on a mutable object of type [S] that may raise: the
    object is threaded through, and kept as it is at the raise. *)
Definition M (S A : Type) : Type := S -> S * result A.

Definition ret {S A} (a : A) : M S A := fun s => (s, Ok a).
Definition raise {S A} (e : Exn) : M S A := fun s => (s, Raise e).
Definition lift {S A} (r : result A) : M S A := fun s => (s, r).
Definition modify {S} (f : S -> S) : M S unit := fun s => (f s, Ok tt).
Definition gets {S A} (f : S -> A) : M S A := fun s => (s, Ok (f s)).

Definition bind {S A B} (m : M S A) (k : A -> M S B) : M S B :=
  fun s =>
    match m s with
    | (s', Ok a) => k a s'
    | (s', Raise e) => (s', Raise e)
    end.

End Py.
Import Py.

Notation "'try' x <- e ; k" := (rbind e (fun x => k))
  (at level 10, x name, e at level 100, k at level 200,
   format "'[v' 'try'  x  <-  e ; '/' k ']'").
Notation "'do' x <~ e ; k" := (bind e (fun x => k))
  (at level 10, x name, e at level 100, k at level 200,
   format "'[v' 'do'  x  <~  e ; '/' k ']'").
Notation "'run' e ; k" := (bind e (fun _ => k))
  (at level 10, e at level 100, k at level 200,
   format "'[v' 'run'  e ; '/' k ']'").

(* ===================================================================== *)
(** * util.py                                                             *)
(* ===================================================================== *)

(** ** class Version *)

Module Version.

Record t : Type := { version : list Z }.

(** One component of the dotted string, as the body of the loop of
    [string_to_tuple] computes it. *)
Definition component (x : string) : Z :=
  if isdigit x then py_int x
  else
    let tmp := split_on is_letter x in
    let tmp := List.filter isdigit tmp in
    match tmp with
    | t0 :: _ => py_int t0
    | [] => 0
    end.

Definition string_to_tuple (vs : string) : list Z :=
  let nn := str_split "." vs in
  List.map component nn.

(** [Version(version)]. *)
Definition init (vs : string) : t := {| version := string_to_tuple vs |}.

(** The loops of [__eq__], [__gt__] and [__lt__] run over
    [enumerate(self.version)]: [k] is the index reached, [rest] what is
    left of [self.version], and [c] the whole of [c.version], read at
    index [k]. *)
Fixpoint eq_loop (k : nat) (rest c : list Z) : result bool :=
  match rest with
  | [] => Ok true
  | cur_n :: rest' =>
      rbind (index c k) (fun ck =>
        if negb (cur_n =? ck) then Ok false
        else eq_loop (S k) rest' c)
  end.

Fixpoint gt_loop (k : nat) (rest c : list Z) : result bool :=
  match rest with
  | [] => Ok false
  | cur_n :: rest' =>
      rbind (index c k) (fun ck =>
        if ck <? cur_n then Ok true
        else if negb (cur_n =? ck) then Ok false
        else gt_loop (S k) rest' c)
  end.

Fixpoint lt_loop (k : nat) (rest c : list Z) : result bool :=
  match rest with
  | [] => Ok false
  | cur_n :: rest' =>
      rbind (index c k) (fun ck =>
        if cur_n <? ck then Ok true
        else if negb (cur_n =? ck) then Ok false
        else lt_loop (S k) rest' c)
  end.

Definition eq (self c : t) : result bool := eq_loop 0 (version self) (version c).
Definition ne (self c : t) : result bool := rbind (eq self c) (fun b => Ok (negb b)).
Definition gt (self c : t) : result bool := gt_loop 0 (version self) (version c).
Definition lt (self c : t) : result bool := lt_loop 0 (version self) (version c).

(** [self.__eq__(c) or self.__gt__(c)]: the second call is made only when
    the first returned False. *)
Definition ge (self c : t) : result bool :=
  rbind (eq self c) (fun b => if b then Ok true else gt self c).
Definition le (self c : t) : result bool :=
  rbind (eq self c) (fun b => if b then Ok true else lt self c).

(** *** The comparison the specification names

    The standard lexicographic comparison of two integer sequences, as
    the language's own sequence comparison does it: the first differing
    position decides, and a proper prefix is smaller. *)
Fixpoint lex_compare (a b : list Z) : comparison :=
  match a, b with
  | [], [] => Eq
  | [], _ :: _ => Lt
  | _ :: _, [] => Gt
  | x :: a', y :: b' =>
      match x ?= y with
      | Eq => lex_compare a' b'
      | o => o
      end
  end.

Definition lex_eq (a b : list Z) : bool :=
  match lex_compare a b with Eq => true | _ => false end.
Definition lex_gt (a b : list Z) : bool :=
  match lex_compare a b with Gt => true | _ => false end.
Definition lex_lt (a b : list Z) : bool :=
  match lex_compare a b with Lt => true | _ => false end.
Definition lex_ge (a b : list Z) : bool :=
  match lex_compare a b with Lt => false | _ => true end.
Definition lex_le (a b : list Z) : bool :=
  match lex_compare a b with Gt => false | _ => true end.

End Version.

(** ** class AttribDict(dict) *)

Module AttribDict.

(** Names that ordinary attribute lookup resolves on an instance of a
    [dict] subclass: the methods and slots of [dict] and [object], and
    what the class statement itself adds.  [__getattr__] is the fallback
    of attribute access and runs only for names outside this list;
    [__setattr__] and [__delattr__] replace the default and run for every
    name.  The instance's own [__dict__] stays empty because every
    attribute assignment is redirected to the mapping.  The list is that
    of Python 3.11; earlier versions lack a few of the dunder names. *)
Definition class_attributes : list string :=
  [ "clear"; "copy"; "fromkeys"; "get"; "items"; "keys"; "pop"; "popitem";
    "setdefault"; "update"; "values";
    "__class__"; "__class_getitem__"; "__contains__"; "__delattr__";
    "__delitem__"; "__dict__"; "__dir__"; "__doc__"; "__eq__"; "__format__";
    "__ge__"; "__getattr__"; "__getattribute__"; "__getitem__";
    "__getstate__"; "__gt__"; "__hash__"; "__init__"; "__init_subclass__";
    "__ior__"; "__iter__"; "__le__"; "__len__"; "__lt__"; "__module__";
    "__ne__"; "__new__"; "__or__"; "__reduce__"; "__reduce_ex__";
    "__repr__"; "__reversed__"; "__ror__"; "__setattr__"; "__setitem__";
    "__sizeof__"; "__str__"; "__subclasshook__"; "__weakref__" ].

Definition is_class_attribute (name : string) : bool :=
  existsb (String.eqb name) class_attributes.

Section WithValues.
Context {V : Type}.

(** What an attribute access yields: an item of the mapping, or the
    attribute of the class of that name (a method, a slot). *)
Inductive attr : Type :=
| Item (v : V)
| ClassAttr (name : string).

(** [name in self]. *)
Definition contains (self : gmap string V) (name : string) : bool :=
  match self !! name with
  | Some _ => true
  | None => false
  end.

(** [self[name]]. *)
Definition getitem (self : gmap string V) (name : string) : result V :=
  match self !! name with
  | Some v => Ok v
  | None => Raise (KeyError [name])
  end.

Definition __getattr__ (self : gmap string V) (name : string) : result attr :=
  if contains self name then rbind (getitem self name) (fun v => Ok (Item v))
  else Raise (AttributeError ("No such attribute: " ++ name)%string).

Definition __setattr__ (self : gmap string V) (name : string) (value : V)
  : gmap string V :=
  <[name := value]> self.

Definition __delattr__ (self : gmap string V) (name : string)
  : result (gmap string V) :=
  if contains self name then Ok (delete name self)
  else Raise (AttributeError ("No such attribute: " ++ name)%string).

(** [self.name]: ordinary lookup first, [__getattr__] when it fails. *)
Definition getattr (self : gmap string V) (name : string) : result attr :=
  if is_class_attribute name then Ok (ClassAttr name)
  else __getattr__ self name.

(** [self.name = value] and [del self.name]. *)
Definition setattr (self : gmap string V) (name : string) (value : V)
  : gmap string V :=
  __setattr__ self name value.

Definition delattr (self : gmap string V) (name : string)
  : result (gmap string V) :=
  __delattr__ self name.

End WithValues.
Arguments attr V : clear implicits.

End AttribDict.

(** ** task_timer *)

Module TaskTimer.

Inductive msg : Type :=
| Text (s : string)
| Sleeping (fmt : string) (delay : Q)
| Exc (e : Exn).

(** The world of the timer thread.  [clock] is the wall clock in seconds
    since the epoch ([UTCDateTime().timestamp]); [stop_event] is the flag
    as the timer itself has set it; [calls] lists, per invocation of the
    callback, the clock when it was called and when it came back. *)
Record state : Type := {
  clock : Q;
  stop_event : bool;
  calls : list (Q * Q);
  logger : list (level * msg)
}.

Definition log (l : level) (m : msg) : M state unit :=
  modify (fun st => {| clock := clock st; stop_event := stop_event st;
                       calls := calls st; logger := logger st ++ [(l, m)] |}).

Definition set_stop : M state unit :=
  modify (fun st => {| clock := clock st; stop_event := true;
                       calls := calls st; logger := logger st |}).

(** [x % y] for a float [x] and an int [y]: the result has the sign of
    [y]; ZeroDivisionError for [y = 0]. *)
Definition float_mod (x : Q) (y : Z) : result Q :=
  if y =? 0 then Raise ZeroDivisionError
  else Ok (x - inject_Z y * inject_Z (Qfloor (x / inject_Z y)))%Q.

(** [time.sleep(d)]: returns after exactly [d] seconds of wall clock;
    ValueError for a negative [d]. *)
Definition sleep (d : Q) : M state unit :=
  if Qle_bool 0 d then
    modify (fun st => {| clock := (clock st + d)%Q; stop_event := stop_event st;
                         calls := calls st; logger := logger st |})
  else raise (ValueError "sleep length must be non-negative").

(** The three lines that end the prologue and every round of the loop:
    read the clock, compute the delay, log it and sleep. *)
Definition sleep_to_next_interval (fmt : string) (interval : Z) : M state unit :=
  do now <~ gets clock ;
  do r <~ lift (float_mod now interval) ;
  let delay_to_next_interval := (inject_Z interval - r)%Q in
  run log INFO (Sleeping fmt delay_to_next_interval) ;
  sleep delay_to_next_interval.

(** How a bounded run of the loop ended. *)
Inductive outcome : Type :=
| Returned
| Looping.

Section Timer.
(** The callback, called at clock [t]: how long it runs and the
    exception it raises, if any. *)
Variable callback : Q -> Q * option Exn.
(** The stop event as other threads have set it, read at clock [t]. *)
Variable stop_requested : Q -> bool.

Definition is_set : M state bool :=
  gets (fun st => stop_event st || stop_requested (clock st)).

Definition run_callback : M state unit :=
  fun st =>
    let '(duration, exn) := callback (clock st) in
    let back := (clock st + duration)%Q in
    ({| clock := back; stop_event := stop_event st;
        calls := calls st ++ [(clock st, back)]; logger := logger st |},
     match exn with
     | None => Ok tt
     | Some e => Raise e
     end).

(** [try: ... callback() except Exception as e: ...]. *)
Definition guarded_callback : M state unit :=
  fun st =>
    match (run log INFO (Text "task_timer: Executing callback.") ; run_callback) st with
    | (st', Ok tt) => (st', Ok tt)
    | (st', Raise e) => (run log ERROR (Exc e) ; set_stop) st'
    end.

(** The [while] loop, for at most [fuel] tests of its condition;
    [interval] is the integer that [int(interval)] returned. *)
Fixpoint loop (fuel : nat) (interval : Z) : M state outcome :=
  match fuel with
  | O => ret Looping
  | S fuel' =>
      do stop <~ is_set ;
      if stop then
        run log DEBUG (Text "Leaving the task_timer method.") ;
        ret Returned
      else
        run guarded_callback ;
        run sleep_to_next_interval "task_timer: Sleeping for %f seconds." interval ;
        loop fuel' interval
  end.

Definition task_timer (fuel : nat) (interval : Z) : M state outcome :=
  run log INFO (Text "Starting the timer.") ;
  run sleep_to_next_interval "Sleeping for %f seconds." interval ;
  loop fuel interval.

End Timer.

Definition start (now : Q) : state :=
  {| clock := now; stop_event := false; calls := []; logger := [] |}.

(** What [float_mod t interval] returns for a positive [interval]. *)
Definition remainder (interval : Z) (t : Q) : Q :=
  (t - inject_Z interval * inject_Z (Qfloor (t / inject_Z interval)))%Q.

(** *** Wall-clock boundaries, as the specification speaks of them *)

(** The first multiple of [interval] that lies after [t]. *)
Definition next_boundary (interval : Z) (t : Q) : Q :=
  inject_Z (interval * (Qfloor (t / inject_Z interval) + 1)).

(** Every call in [cs] happens at the boundary that follows the clock
    reading before it: [t] for the first call, and for each later call
    the clock at which the previous call came back. *)
Fixpoint on_boundaries (interval : Z) (t : Q) (cs : list (Q * Q)) : Prop :=
  match cs with
  | [] => True
  | (called, back) :: cs' =>
      (called == next_boundary interval t)%Q /\ on_boundaries interval back cs'
  end.

(** The clock at which the last call of [cs] came back; [t] when there
    was none. *)
Fixpoint last_back (t : Q) (cs : list (Q * Q)) : Q :=
  match cs with
  | [] => t
  | (_, back) :: cs' => last_back back cs'
  end.

(** The timer sits on the boundary from which its next call starts: the
    calls made so far, from clock [t] on, were on their boundaries, and so
    is the clock now. *)
Definition ready (interval : Z) (t : Q) (st : state) : Prop :=
  on_boundaries interval t (calls st)
  /\ (clock st == next_boundary interval (last_back t (calls st)))%Q.

End TaskTimer.

(* ===================================================================== *)
(** * client.py                                                           *)
(* ===================================================================== *)

Module Client.

(** A point in time ([obspy.UTCDateTime]): nanoseconds since the epoch. *)
Definition UTCDateTime : Type := Z.

(** A network, station, location, channel code. *)
Definition NSLC : Type := (string * string * string * string)%type.

(** A trace: the identity and time span of its [stats], and its samples
    ([None] where the array is masked). *)
Record Trace : Type := {
  network : string;
  station : string;
  location : string;
  channel : string;
  starttime : UTCDateTime;
  endtime : UTCDateTime;
  data : list (option Z)
}.

Global Instance Trace_eq_dec : EqDecision Trace.
Proof. solve_decision. Defined.

(** [trace.id]. *)
Definition id (trace : Trace) : string :=
  (network trace ++ "." ++ station trace ++ "." ++ location trace ++ "."
     ++ channel trace)%string.

(** A stream is the list of its traces. *)
Definition Stream : Type := list Trace.
Bind Scope list_scope with Stream.

(** *** The inventory, as the client queries it *)

(** The recorder stream bound to a channel ([stream_tb[0].item]). *)
Record RecorderStream : Type := {
  serial : string;
  name : string
}.

(** A channel: its code, and its stream bindings from a start time on. *)
Record Channel : Type := {
  nslc : NSLC;
  get_stream : UTCDateTime -> list RecorderStream
}.

Record Station : Type := {
  channels : list Channel
}.

Record Inventory : Type := {
  get_station : option string -> option string -> option string -> list Station
}.

(** One requested station of the configuration: the JSON array of its
    three codes, or a plain string (indexed by character). *)
Inductive Nsl : Type :=
| NslList (codes : list string)
| NslStr (s : string).

(** [cur_nsl[i]]. *)
Definition nsl_index (cur_nsl : Nsl) (i : nat) : result string :=
  match cur_nsl with
  | NslList codes => index codes i
  | NslStr s => str_index s i
  end.

(** ['No station found for {0:s}. Check the input file.'.format(cur_nsl)]:
    the format code [s] is accepted by [str] and refused by [list]. *)
Definition format_no_station (cur_nsl : Nsl) : result string :=
  match cur_nsl with
  | NslStr s => Ok ("No station found for " ++ s ++ ". Check the input file.")%string
  | NslList _ => Raise (TypeError "unsupported format string passed to list.__format__")
  end.

(** *** The client object *)

Inductive msg : Type :=
| Text (s : string)
| OfTrace (trace : Trace)
| OfStream (s : Stream)
| OfMap (m : gmap (list string) NSLC).

Record t : Type := {
  recorder_map : gmap (list string) NSLC;
  data_dir : string;
  stream : Stream;
  logger : list (level * msg)
}.

Definition log (l : level) (m : msg) : M t unit :=
  modify (fun self => {| recorder_map := recorder_map self; data_dir := data_dir self;
                         stream := stream self; logger := logger self ++ [(l, m)] |}).

Definition set_stream (s : Stream) : M t unit :=
  modify (fun self => {| recorder_map := recorder_map self; data_dir := data_dir self;
                         stream := s; logger := logger self |}).

(** **** get_recorder_mappings *)

(** The body of the loop over [station_nsl]. *)
Definition find_station (inventory : Inventory) (cur_nsl : Nsl) : result Station :=
  try network <- nsl_index cur_nsl 0;
  try name <- nsl_index cur_nsl 1;
  try location <- nsl_index cur_nsl 2;
  let cur_station := get_station inventory (Some network) (Some name) (Some location) in
  if (1 <? length cur_station)%nat then
    Raise (ValueError "There are more than one stations. This is not yet supported.")
  else if (length cur_station =? 0)%nat then
    try text <- format_no_station cur_nsl;
    Raise (ValueError text)
  else index cur_station 0.

Fixpoint find_stations (inventory : Inventory) (station_nsl : list Nsl)
         (station_list : list Station) : result (list Station) :=
  match station_nsl with
  | [] => Ok station_list
  | cur_nsl :: rest =>
      try cur_station <- find_station inventory cur_nsl;
      find_stations inventory rest (station_list ++ [cur_station])
  end.

(** The [if station_nsl is None: ... else: ...] that fills
    [station_list]. *)
Definition select_stations (inventory : Inventory) (station_nsl : option (list Nsl))
  : result (list Station) :=
  match station_nsl with
  | None => Ok (get_station inventory None None None)
  | Some station_nsl => find_stations inventory station_nsl []
  end.

(** The body of the loop over [station.channels]. *)
Definition map_channel (now : UTCDateTime) (cur_channel : Channel)
           (recorder_map : gmap (list string) NSLC)
  : result (gmap (list string) NSLC) :=
  let stream_tb := get_stream cur_channel now in
  try tb <- index stream_tb 0;
  try cur_loc <- index (str_split ":" (name tb)) 0;
  try tb <- index stream_tb 0;
  try cur_chan <- index (str_split ":" (name tb)) 1;
  try tb <- index stream_tb 0;
  let cur_key := ["XX"; serial tb; cur_loc; cur_chan] in
  Ok (<[cur_key := nslc cur_channel]> recorder_map).

Fixpoint map_channels (now : UTCDateTime) (chans : list Channel)
         (recorder_map : gmap (list string) NSLC)
  : result (gmap (list string) NSLC) :=
  match chans with
  | [] => Ok recorder_map
  | cur_channel :: rest =>
      try recorder_map <- map_channel now cur_channel recorder_map;
      map_channels now rest recorder_map
  end.

Fixpoint map_stations (now : UTCDateTime) (station_list : list Station)
         (recorder_map : gmap (list string) NSLC)
  : result (gmap (list string) NSLC) :=
  match station_list with
  | [] => Ok recorder_map
  | station :: rest =>
      try recorder_map <- map_channels now (channels station) recorder_map;
      map_stations now rest recorder_map
  end.

(** [get_recorder_mappings(station_nsl)], with the inventory of the
    project and the clock read by [obspy.UTCDateTime()], run on the
    logger of the client.  The table is a local of the call and is handed
    out only by the final [return]. *)
Definition get_recorder_mappings (inventory : Inventory) (now : UTCDateTime)
           (station_nsl : option (list Nsl))
  : M (list (level * msg)) (gmap (list string) NSLC) :=
  let recorder_map := (∅ : gmap (list string) NSLC) in
  do station_list <~ lift (select_stations inventory station_nsl);
  do recorder_map <~ lift (map_stations now station_list recorder_map);
  run modify (fun logger => (logger ++ [(DEBUG, OfMap recorder_map)])%list);
  ret recorder_map.

(** [__init__]: the requested stations ([None] for an empty list), the
    output directory, an empty stream, and the recorder mappings. *)
Definition init (inventory : Inventory) (now : UTCDateTime)
           (config_stations : list Nsl) (config_data_dir : string) : result t :=
  let stations :=
    if (0 <? length config_stations)%nat then Some config_stations else None in
  match get_recorder_mappings inventory now stations [] with
  | (logger, Ok recorder_map) =>
      Ok {| recorder_map := recorder_map; data_dir := config_data_dir;
            stream := []; logger := logger |}
  | (_, Raise e) => Raise e
  end.

(** **** The ingest buffer: [self.stream] under [self.stream_lock] *)

(** [with self.stream_lock: self.stream.append(trace)]. *)
Definition append (trace : Trace) : M t unit :=
  do s <~ gets stream;
  set_stream (s ++ [trace])%list.

(** [Stream.copy()]: a deep copy, the same traces by value. *)
Definition copy (s : Stream) : Stream := s.

(** [with self.stream_lock: export_stream = self.stream.copy();
    self.stream = obspy.Stream()]. *)
Definition drain : M t Stream :=
  do s <~ gets stream;
  let export_stream := copy s in
  run set_stream [];
  ret export_stream.

(** **** on_data *)

Definition set_nslc (trace : Trace) (cur_nslc : NSLC) : Trace :=
  let '(n, s, l, c) := cur_nslc in
  {| network := n; station := s; location := l; channel := c;
     starttime := starttime trace; endtime := endtime trace; data := data trace |}.

(** [self.recorder_map[key]]. *)
Definition getitem (m : gmap (list string) NSLC) (key : list string) : result NSLC :=
  match m !! key with
  | Some v => Ok v
  | None => Raise (KeyError key)
  end.

(** [tuple(trace.id.split('.'))]. *)
Definition source_id (trace : Trace) : list string := str_split "." (id trace).

Definition on_data (trace : Trace) : M t unit :=
  run log DEBUG (Text "Received trace:");
  run log DEBUG (OfTrace trace);
  do m <~ gets recorder_map;
  do cur_nslc <~ lift (getitem m (source_id trace));
  let trace := set_nslc trace cur_nslc in
  run log DEBUG (Text "Changed metadata:");
  run log DEBUG (OfTrace trace);
  append trace.

(** **** save_data *)

(** The client together with the output directory it writes to: the paths
    of the files that exist, and the calls made to the output codec. *)
Record world : Type := {
  self : t;
  files : gset string;
  codec_calls : list (string * Stream)
}.

(** A method that only touches the client object. *)
Definition on_self {A} (m : M t A) : M world A :=
  fun w =>
    let '(self', r) := m (self w) in
    ({| self := self'; files := files w; codec_calls := codec_calls w |}, r).

(** [os.remove(path)]. *)
Definition os_remove (path : string) : M world unit :=
  fun w =>
    if bool_decide (path ∈ files w) then
      ({| self := self w; files := files w ∖ {[path]};
          codec_calls := codec_calls w |}, Ok tt)
    else (w, Raise (FileNotFoundError path)).

Section ObsPy.
(** The ObsPy calls that [save_data] makes.  [Stream.merge()] changes
    the stream it is called on; [Stream.split()] leaves its stream alone
    and returns a new one; [UTCDateTime.isoformat()] renders a time;
    [Stream.write(path, format="MSEED", reclen=512, encoding='STEIM2',
    flush=True)] acts on the files and may raise. *)
Variable merge : Stream -> result Stream.
Variable split : Stream -> Stream.
Variable isoformat : UTCDateTime -> string.
Variable write : gset string -> string -> Stream -> gset string * option Exn.

Definition stream_write (path : string) (export_stream : Stream) : M world unit :=
  fun w =>
    let '(files', exn) := write (files w) path export_stream in
    ({| self := self w; files := files';
        codec_calls := (codec_calls w ++ [(path, export_stream)])%list |},
     match exn with
     | None => Ok tt
     | Some e => Raise e
     end).

(** The name of the export file for a time span. *)
Definition filename (cur_start cur_end : UTCDateTime) : string :=
  ("msstm_mseed_export" ++ "_" ++ str_remove ":" (isoformat cur_start)
   ++ "_" ++ str_remove ":" (isoformat cur_end) ++ ".msd")%string.

(** The path of the export file in the output directory [dir]. *)
Definition export_path (dir : string) (cur_start cur_end : UTCDateTime) : string :=
  os_path_join dir (filename cur_start cur_end).

Definition save_data : M world unit :=
  run on_self (log INFO (Text "Saving the data."));
  do export_stream <~ on_self drain;
  do export_stream <~ lift (merge export_stream);
  let _ := split export_stream in
  run on_self (log DEBUG (OfStream export_stream));
  let flush_mode := true in
  do cur_start <~ lift (py_min (List.map starttime export_stream));
  do cur_end <~ lift (py_max (List.map endtime export_stream));
  let cur_filename := filename cur_start cur_end in
  do dir <~ gets (fun w => data_dir (self w));
  let cur_filepath := os_path_join dir cur_filename in
  fun w =>
    match stream_write cur_filepath export_stream w with
    | (w', Raise (NotImplementedError _)) =>
        on_self (log ERROR (Text "Error when writing the miniseed file with masked data. Clearing the stream and #going on.")) w'
    | (w', Raise (ValueError _)) =>
        (run on_self (log INFO (Text "Not enough data to write a miniseed record."));
         os_remove cur_filepath) w'
    | (w', r) => (w', r)
    end.

End ObsPy.

(** The world once [save_data] has drained the buffer and logged the
    stream it is about to export. *)
Definition drained_self (w : world) (export_stream : Stream) : t :=
  {| recorder_map := recorder_map (self w); data_dir := data_dir (self w);
     stream := [];
     logger := logger (self w) ++ [(INFO, Text "Saving the data.");
                                   (DEBUG, OfStream export_stream)] |}.

Definition drained_world (w : world) (export_stream : Stream) : world :=
  {| self := drained_self w export_stream; files := files w;
     codec_calls := codec_calls w |}.

(** **** Histories of the ingest buffer *)

(** The two operations on the buffer, each run as a whole under the
    lock: the append of [on_data] and the drain of [save_data]. *)
Inductive buffer_op : Type :=
| Append (trace : Trace)
| Drain.

(** Runs [ops] on the client: the results of the drains, in order, and
    the client at the end. *)
Fixpoint run_ops (ops : list buffer_op) (self : t) : list Stream * t :=
  match ops with
  | [] => ([], self)
  | Append trace :: rest => run_ops rest (fst (append trace self))
  | Drain :: rest =>
      match drain self with
      | (self', Ok export_stream) =>
          let '(drained, final) := run_ops rest self' in
          (export_stream :: drained, final)
      | (self', Raise _) => run_ops rest self'
      end
  end.

(** The batches that [ops] appends, in order. *)
Fixpoint appended (ops : list buffer_op) : list Trace :=
  match ops with
  | [] => []
  | Append trace :: rest => trace :: appended rest
  | Drain :: rest => appended rest
  end.

End Client.

(* ===================================================================== *)
(** * A small installation, for running the definitions                   *)
(* ===================================================================== *)

Module Sample.
Import Client.

(** One station with two channels; the second has no recorder stream
    bound to it. *)
Definition bound_channel : Channel :=
  {| nslc := ("MSSNet", "DUBA", "00", "Hparallel");
     get_stream := fun _ => [ {| serial := "9D6C"; name := "00:001" |} ] |}.

Definition unbound_channel : Channel :=
  {| nslc := ("MSSNet", "DUBA", "00", "Hnormal");
     get_stream := fun _ => [] |}.

Definition duba : Station := {| channels := [bound_channel] |}.
Definition duba_two : Station := {| channels := [unbound_channel; bound_channel] |}.

Definition matches (want : option string) (have : string) : bool :=
  match want with
  | None => true
  | Some s => String.eqb s have
  end.

(** An inventory holding [stations], each under network MSSNet, its own
    name and location 00. *)
Definition inventory_of (stations : list (string * Station)) : Inventory :=
  {| get_station := fun network name location =>
       List.map snd
         (List.filter (fun '(n, _) =>
                         matches network "MSSNet" && matches name n
                         && matches location "00") stations) |}.

Definition inventory : Inventory := inventory_of [("DUBA", duba)].
Definition inventory_unbound : Inventory := inventory_of [("DUBA", duba_two)].

Definition now : UTCDateTime := 1667476800000000000.

(** The client of [inventory], with an empty buffer. *)
Definition client : t :=
  {| recorder_map := {[ ["XX"; "9D6C"; "00"; "001"] := ("MSSNet", "DUBA", "00", "Hparallel") ]};
     data_dir := "/data/mseed";
     stream := [];
     logger := [] |}.

(** Two batches of the mapped recorder stream, eleven seconds apart at
    one sample per second, and one of a stream that the table does not
    know. *)
Definition batch1 : Trace :=
  {| network := "XX"; station := "9D6C"; location := "00"; channel := "001";
     starttime := 1667476800000000000; endtime := 1667476809000000000;
     data := List.map Some [3; 1; 4; 1; 5; 9; 2; 6; 5; 3] |}.

Definition batch2 : Trace :=
  {| network := "XX"; station := "9D6C"; location := "00"; channel := "001";
     starttime := 1667476820000000000; endtime := 1667476822000000000;
     data := List.map Some [5; 8; 9] |}.

Definition stray : Trace :=
  {| network := "XX"; station := "FFFF"; location := "00"; channel := "001";
     starttime := 1667476800000000000; endtime := 1667476801000000000;
     data := List.map Some [2; 7] |}.

(** The client after [on_data] has delivered both batches. *)
Definition client_two_batches : t :=
  fst (on_data batch2 (fst (on_data batch1 client))).

(** The client after [on_data] has delivered the short batch alone. *)
Definition client_short_batch : t := fst (on_data batch2 client).

(** The two batches under their destination identifier, and the one
    trace that joins them across the gap. *)
Definition remapped1 : Trace := set_nslc batch1 ("MSSNet", "DUBA", "00", "Hparallel").
Definition remapped2 : Trace := set_nslc batch2 ("MSSNet", "DUBA", "00", "Hparallel").

(** A world with an empty output directory. *)
Definition world_of (c : t) : world :=
  {| self := c; files := ∅; codec_calls := [] |}.

(** **** Stand-ins for the ObsPy calls

    Enough of the library to run [save_data] on streams sampled once per
    second: [merge] joins the traces of one identifier in order of arrival
    and masks the samples missing between them; [split] cuts a trace at its
    masked samples; [isoformat] renders the times that occur here; [write]
    refuses masked data before it touches the file, and creates the file
    before it refuses a stream of fewer than [min_samples] samples. *)
Definition delta : Z := 1000000000.

Definition join (a b : Trace) : Trace :=
  {| network := network a; station := station a; location := location a;
     channel := channel a; starttime := starttime a; endtime := endtime b;
     data := data a
             ++ replicate (Z.to_nat ((starttime b - endtime a) / delta - 1)) None
             ++ data b |}.

Fixpoint merge_into (acc : Stream) (trace : Trace) : Stream :=
  match acc with
  | [] => [trace]
  | a :: acc' =>
      if String.eqb (id a) (id trace) then join a trace :: acc'
      else a :: merge_into acc' trace
  end.

Definition merge (s : Stream) : result Stream := Ok (fold_left merge_into s []).

(** The unmasked runs of [d], whose first sample is at [time]: [cur] is
    the run being read, with its start. *)
Fixpoint runs (time : Z) (cur : option (Z * list Z)) (d : list (option Z))
  : list (Z * list Z) :=
  match d, cur with
  | [], None => []
  | [], Some r => [r]
  | Some x :: d', None => runs (time + delta) (Some (time, [x])) d'
  | Some x :: d', Some (start, xs) => runs (time + delta) (Some (start, xs ++ [x])) d'
  | None :: d', None => runs (time + delta) None d'
  | None :: d', Some r => r :: runs (time + delta) None d'
  end.

Definition split_trace (trace : Trace) : Stream :=
  List.map (fun '(start, xs) =>
              {| network := network trace; station := station trace;
                 location := location trace; channel := channel trace;
                 starttime := start;
                 endtime := start + delta * (Z.of_nat (length xs) - 1);
                 data := List.map Some xs |})
           (runs (starttime trace) None (data trace)).

Definition split (s : Stream) : Stream := List.concat (List.map split_trace s).

Definition isoformat (time : UTCDateTime) : string :=
  if time =? 1667476800000000000 then "2022-11-03T12:00:00"
  else if time =? 1667476809000000000 then "2022-11-03T12:00:09"
  else if time =? 1667476820000000000 then "2022-11-03T12:00:20"
  else if time =? 1667476822000000000 then "2022-11-03T12:00:22"
  else "1970-01-01T00:00:00".

Definition is_masked (s : Stream) : bool :=
  existsb (fun trace => existsb (fun x => match x with None => true | Some _ => false end) (data trace)) s.

Definition samples (s : Stream) : nat :=
  list_sum (List.map (fun trace => length (data trace)) s).

Definition write (min_samples : nat) (files : gset string) (path : string)
           (s : Stream) : gset string * option Exn :=
  if is_masked s then
    (files, Some (NotImplementedError "Masked array writing is not supported."))
  else
    ({[ path ]} ∪ files,
     if (samples s <? min_samples)%nat
     then Some (ValueError "Did not write any data for trace")
     else None).

End Sample.

(* ===================================================================== *)
(** * Further parts of util.py and client.py                              *)
(* ===================================================================== *)

(** ** Version.__str__ *)

Module VersionStr.

Definition digit_char (d : Z) : ascii := ascii_of_nat (Z.to_nat (48 + d)).

(** The decimal digits of [n], most significant first, put in front of
    [acc]; [fuel] bounds the number of digits. *)
Fixpoint digits (fuel : nat) (n : Z) (acc : string) : string :=
  match fuel with
  | O => acc
  | S fuel' =>
      let acc' := String (digit_char (n mod 10)) acc in
      if n / 10 =? 0 then acc' else digits fuel' (n / 10) acc'
  end.

(** [str(n)] for an int. *)
Definition str_int (n : Z) : string :=
  if n <? 0 then String "-" (digits (S (Z.to_nat (Z.log2 (- n)))) (- n) "")
  else digits (S (Z.to_nat (Z.log2 n))) n "".

(** ['.'.join([str(x) for x in self.version])]. *)
Definition __str__ (self : Version.t) : string :=
  str_join "." (List.map str_int (Version.version self)).

End VersionStr.

(** ** More of the client *)

Module ClientMore.
Import Client.

(** The key that the body of the channel loop of [get_recorder_mappings]
    computes for a channel. *)
Definition channel_key (now : UTCDateTime) (cur_channel : Channel)
  : result (list string) :=
  let stream_tb := get_stream cur_channel now in
  try tb <- index stream_tb 0;
  try cur_loc <- index (str_split ":" (name tb)) 0;
  try tb <- index stream_tb 0;
  try cur_chan <- index (str_split ":" (name tb)) 1;
  try tb <- index stream_tb 0;
  Ok ["XX"; serial tb; cur_loc; cur_chan].

(** All channels of a list of stations, in the order of the two loops. *)
Definition all_channels (station_list : list Station) : list Channel :=
  List.concat (List.map channels station_list).

(** What [on_data] puts into the buffer for a trace: the rewritten trace
    when its identifier is in the table, nothing otherwise. *)
Definition accepted (m : gmap (list string) NSLC) (trace : Trace) : list Trace :=
  match m !! source_id trace with
  | Some cur_nslc => [set_nslc trace cur_nslc]
  | None => []
  end.

(** The client after [on_data] was called for each of [traces] in turn,
    whatever each call returned or raised. *)
Fixpoint deliver (traces : list Trace) (self : t) : t :=
  match traces with
  | [] => self
  | trace :: rest => deliver rest (fst (on_data trace self))
  end.

End ClientMore.

(** ** More of the small installation *)

Module SampleMore.
Import Client.

(** A second channel bound to the recorder stream of [Sample.bound_channel],
    and a station that has both. *)
Definition shared_channel : Channel :=
  {| nslc := ("MSSNet", "DUBA", "00", "Hnormal");
     get_stream := fun _ => [ {| serial := "9D6C"; name := "00:001" |} ] |}.

Definition duba_shared : Station :=
  {| channels := [Sample.bound_channel; shared_channel] |}.

Definition inventory_shared : Inventory := Sample.inventory_of [("DUBA", duba_shared)].

(** An inventory that holds station DUBA twice. *)
Definition inventory_twice : Inventory :=
  Sample.inventory_of [("DUBA", Sample.duba); ("DUBA", Sample.duba_two)].

End SampleMore.

(** ** string_to_tuple with the errors of int() *)

Module VersionChecked.

(** The characters that [str.isdigit] accepts among the first 256 code
    points: the ten digits, and the superscripts two, three and one, which
    [int] refuses. *)
Definition is_superscript (c : ascii) : bool :=
  let n := nat_of_ascii c in
  (n =? 178)%nat || (n =? 179)%nat || (n =? 185)%nat.

Definition isdigit (s : string) : bool :=
  match s with
  | EmptyString => false
  | _ => all_chars (fun c => is_digit c || is_superscript c) s
  end.

(** [int(s)] on a string for which [isdigit] holds: ValueError for a
    character that is no decimal digit, and for more digits than the
    conversion limit of the interpreter (4300 since Python 3.11). *)
Definition int (s : string) : result Z :=
  if negb (all_chars is_digit s) then
    Raise (ValueError "invalid literal for int() with base 10")
  else if (4300 <? String.length s)%nat then
    Raise (ValueError "Exceeds the limit (4300 digits) for integer string conversion")
  else Ok (py_int s).

Definition component (x : string) : result Z :=
  if isdigit x then int x
  else
    let tmp := split_on is_letter x in
    let tmp := List.filter isdigit tmp in
    match tmp with
    | t0 :: _ => int t0
    | [] => Ok 0
    end.

(** The loop over [enumerate(nn)]: the first component that cannot be
    converted ends it. *)
Fixpoint components (nn : list string) : result (list Z) :=
  match nn with
  | [] => Ok []
  | x :: rest =>
      try n <- component x;
      try ns <- components rest;
      Ok (n :: ns)
  end.

Definition string_to_tuple (vs : string) : result (list Z) :=
  components (str_split "." vs).

End VersionChecked.

(** ** binary64 *)

Module Float.




End Float.

(** ** task_timer on floats and a clock that is read *)

Module TimerEnv.

(** The world of the timer thread, with the wall clock itself: [clock] is
    the time in seconds since the epoch; [sleeps] lists, per call of
    [time.sleep], the clock at which the timer read it, the reading and the
    delay it asked for; [calls] lists, per invocation of the callback, the
    clock when it was called and the clock at which the timer read it next. *)
Record state : Type := {
  clock : Q;
  stop_event : bool;
  calls : list (Q * Q);
  sleeps : list (Q * Q * Q);
  logger : list (level * TaskTimer.msg)
}.

Definition log (l : level) (m : TaskTimer.msg) : M state unit :=
  modify (fun st => {| clock := clock st; stop_event := stop_event st;
                       calls := calls st; sleeps := sleeps st;
                       logger := logger st ++ [(l, m)] |}).

Definition set_stop : M state unit :=
  modify (fun st => {| clock := clock st; stop_event := true;
                       calls := calls st; sleeps := sleeps st;
                       logger := logger st |}).

(** [d] seconds pass. *)
Definition elapse (d : Q) : M state unit :=
  modify (fun st => {| clock := (clock st + d)%Q; stop_event := stop_event st;
                       calls := calls st; sleeps := sleeps st;
                       logger := logger st |}).

(** C's [fmod(x, y)] for a float [x] and an integer [y] that is a float
    (below 2^53 in absolute value): the remainder of the truncated
    division; it has the sign of [x] and is exact. *)
Definition fmod (x : Q) (y : Z) : Q :=
  Z.rem (Qnum x) (Zpos (Qden x) * y) # Qden x.

Section Env.
(** The callback, called at clock [t]: the time until the timer reads the
    clock again, and the exception it raises, if any. *)
Variable callback : Q -> Q * option Exn.
(** The stop event as other threads have set it, read at clock [t]. *)
Variable stop_requested : Q -> bool.
(** [UTCDateTime().timestamp] at clock [t]: the float that stands for [t]. *)
Variable timestamp : Q -> Q.
(** The rounding of the result of a float operation to a float. *)
Variable fl : Q -> Q.
(** The time that passes, beyond the delay [d] asked for, between the
    reading of the clock at [t] and the next test of the loop condition:
    what [time.sleep] oversleeps and what the statements around it take. *)
Variable lag : Q -> Q -> Q.
(** The time that passes between the test of the loop condition at clock
    [t] and the call of the callback: the logger call between them. *)
Variable latency : Q -> Q.

(** What [x % y] returns for a float [x] and a non-zero int [y], as the
    interpreter computes it: [fmod], and where its result is not zero and
    its sign is not that of [y], [y] added to it, which rounds. *)
Definition float_mod_value (x : Q) (y : Z) : Q :=
  let m := fmod x y in
  if Qnum m =? 0 then 0%Q
  else if xorb (y <? 0) (Qnum m <? 0) then fl (m + inject_Z y)
  else m.

(** [x % y]: ZeroDivisionError for [y = 0]. *)
Definition float_mod (x : Q) (y : Z) : result Q :=
  if y =? 0 then Raise ZeroDivisionError
  else Ok (float_mod_value x y).

(** [y - r] for an int [y] and a float [r]. *)
Definition float_sub (y : Z) (r : Q) : Q := fl (inject_Z y - r).

(** [time.sleep(d)], called for the clock read at [t]. *)
Definition sleep (t now d : Q) : M state unit :=
  if Qle_bool 0 d then
    modify (fun st => {| clock := (t + d + lag t d)%Q; stop_event := stop_event st;
                         calls := calls st; sleeps := sleeps st ++ [(t, now, d)];
                         logger := logger st |})
  else raise (ValueError "sleep length must be non-negative").

Definition sleep_to_next_interval (fmt : string) (interval : Z) : M state unit :=
  do t <~ gets clock;
  let now := timestamp t in
  do r <~ lift (float_mod now interval);
  let delay_to_next_interval := float_sub interval r in
  run log INFO (TaskTimer.Sleeping fmt delay_to_next_interval);
  sleep t now delay_to_next_interval.

Definition is_set : M state bool :=
  gets (fun st => stop_event st || stop_requested (clock st)).

Definition run_callback : M state unit :=
  fun st =>
    let '(duration, exn) := callback (clock st) in
    let back := (clock st + duration)%Q in
    ({| clock := back; stop_event := stop_event st;
        calls := calls st ++ [(clock st, back)]; sleeps := sleeps st;
        logger := logger st |},
     match exn with
     | None => Ok tt
     | Some e => Raise e
     end).

Definition guarded_callback : M state unit :=
  fun st =>
    match (run log INFO (TaskTimer.Text "task_timer: Executing callback.");
           run elapse (latency (clock st));
           run_callback) st with
    | (st', Ok tt) => (st', Ok tt)
    | (st', Raise e) => (run log ERROR (TaskTimer.Exc e); set_stop) st'
    end.

Fixpoint loop (fuel : nat) (interval : Z) : M state TaskTimer.outcome :=
  match fuel with
  | O => ret TaskTimer.Looping
  | S fuel' =>
      do stop <~ is_set;
      if stop then
        run log DEBUG (TaskTimer.Text "Leaving the task_timer method.");
        ret TaskTimer.Returned
      else
        run guarded_callback;
        run sleep_to_next_interval "task_timer: Sleeping for %f seconds." interval;
        loop fuel' interval
  end.

Definition task_timer (fuel : nat) (interval : Z) : M state TaskTimer.outcome :=
  run log INFO (TaskTimer.Text "Starting the timer.");
  run sleep_to_next_interval "Sleeping for %f seconds." interval;
  loop fuel interval.

(** *** What the timer asks for *)

(** The delay computed from the reading of the clock at [t]. *)
Definition delay_at (interval : Z) (t : Q) : Q :=
  float_sub interval (float_mod_value (timestamp t) interval).

(** The record of the sleep for the clock read at [t]. *)
Definition sleep_at (interval : Z) (t : Q) : Q * Q * Q :=
  (t, timestamp t, delay_at interval t).

(** The clock at which the timer tests the loop condition after that
    sleep. *)
Definition wake (interval : Z) (t : Q) : Q :=
  (t + delay_at interval t + lag t (delay_at interval t))%Q.




End Env.

Definition start (now : Q) : state :=
  {| clock := now; stop_event := false; calls := []; sleeps := []; logger := [] |}.

(** The clock that is read exactly, float arithmetic that does not round,
    a sleep that is punctual and statements that take no time. *)
Definition exact (t : Q) : Q := t.
Definition punctual (t d : Q) : Q := 0%Q.
Definition instant (t : Q) : Q := 0%Q.

End TimerEnv.

(* ===================================================================== *)
(** * Properties: Version                                                 *)
(* ===================================================================== *)

Section VersionFacts.
Import Version.

Lemma index_drop (c : list Z) (k : nat) (y : Z) (c' : list Z) :
  drop k c = y :: c' -> index c k = Ok y /\ drop (S k) c = c'.
Proof.
  intros Hd. unfold index.
  assert (Hl : c !! k = Some y).
  { rewrite <- (Nat.add_0_r k), <- lookup_drop, Hd. reflexivity. }
  rewrite Hl. split; [reflexivity|].
  rewrite (drop_S _ _ _ Hl) in Hd. injection Hd as Hd. exact Hd.
Qed.

(** On sequences of one length the three loops compute the
    lexicographic comparison of what is left. *)
Lemma loops_lex (rest : list Z) :
  forall (k : nat) (c c' : list Z),
    drop k c = c' -> length rest = length c' ->
    eq_loop k rest c = Ok (lex_eq rest c')
    /\ gt_loop k rest c = Ok (lex_gt rest c')
    /\ lt_loop k rest c = Ok (lex_lt rest c').
Proof.
  induction rest as [|x rest IH]; intros k c c' Hd Hlen.
  - destruct c'; [|discriminate]. repeat split.
  - destruct c' as [|y c']; [discriminate|].
    destruct (index_drop _ _ _ _ Hd) as [Hi Hd'].
    injection Hlen as Hlen.
    destruct (IH (S k) c c' Hd' Hlen) as (IHe & IHg & IHl).
    cbn [eq_loop gt_loop lt_loop]. rewrite Hi. cbn [rbind].
    unfold lex_eq, lex_gt, lex_lt in *. cbn [lex_compare].
    destruct (Z.compare_spec x y) as [Heq|Hlt|Hgt].
    + subst y. rewrite Z.eqb_refl, Z.ltb_irrefl. cbn [negb].
      repeat split; assumption.
    + assert ((x =? y) = false) as -> by (apply Z.eqb_neq; lia).
      assert ((y <? x) = false) as -> by (apply Z.ltb_ge; lia).
      assert ((x <? y) = true) as -> by (apply Z.ltb_lt; lia).
      repeat split.
    + assert ((x =? y) = false) as -> by (apply Z.eqb_neq; lia).
      assert ((y <? x) = true) as -> by (apply Z.ltb_lt; lia).
      assert ((x <? y) = false) as -> by (apply Z.ltb_ge; lia).
      repeat split.
Qed.

Lemma string_to_tuple_length (vs : string) :
  length (string_to_tuple vs) = length (str_split "." vs).
Proof. unfold string_to_tuple. apply length_map. Qed.

End VersionFacts.

Section VersionCheckedFacts.
Import Version.

Lemma isdigit_checked (s : string) :
  isdigit s = true -> VersionChecked.isdigit s = true.
Proof.
  unfold isdigit, VersionChecked.isdigit. destruct s as [|c s]; [discriminate|].
  generalize (String c s) as w. intros w. induction w as [|a w IH]; cbn [all_chars];
    [reflexivity|].
  intros H. apply andb_true_iff in H as [Ha Hw]. rewrite Ha, (IH Hw). reflexivity.
Qed.

(** Where [int] returns, the string is one of decimal digits and the
    value is the one the total conversion gives. *)
Lemma int_checked (s : string) (n : Z) :
  VersionChecked.int s = Ok n -> all_chars is_digit s = true /\ n = py_int s.
Proof.
  unfold VersionChecked.int. destruct (all_chars is_digit s); cbn [negb];
    [|discriminate].
  destruct (4300 <? String.length s)%nat; [discriminate|].
  intros [= <-]. split; reflexivity.
Qed.

Lemma int_raises (s : string) (e : Exn) :
  VersionChecked.int s = Raise e -> exists text, e = ValueError text.
Proof.
  unfold VersionChecked.int. destruct (negb (all_chars is_digit s));
    [intros [= <-]; eauto|].
  destruct (4300 <? String.length s)%nat; [intros [= <-]; eauto|discriminate].
Qed.

Lemma isdigit_of_checked (s : string) :
  VersionChecked.isdigit s = true -> all_chars is_digit s = true -> isdigit s = true.
Proof. unfold isdigit, VersionChecked.isdigit. destruct s; [discriminate|auto]. Qed.

(** The first piece that the wider test lets through is, when it is one of
    decimal digits, also the first that the narrower test lets through. *)
Lemma filter_isdigit_head (l : list string) (t0 : string) (r : list string) :
  List.filter VersionChecked.isdigit l = t0 :: r ->
  isdigit t0 = true ->
  exists r', List.filter isdigit l = t0 :: r'.
Proof.
  induction l as [|x l IH]; cbn [List.filter]; [discriminate|].
  destruct (VersionChecked.isdigit x) eqn:Hx.
  - intros [= -> _] Ht. rewrite Ht. eauto.
  - intros Hf Ht. destruct (isdigit x) eqn:Hx'.
    + rewrite (isdigit_checked _ Hx') in Hx. discriminate.
    + exact (IH Hf Ht).
Qed.

Lemma filter_isdigit_nil (l : list string) :
  List.filter VersionChecked.isdigit l = [] -> List.filter isdigit l = [].
Proof.
  induction l as [|x l IH]; cbn [List.filter]; [reflexivity|].
  destruct (VersionChecked.isdigit x) eqn:Hx; [discriminate|].
  intros Hf. destruct (isdigit x) eqn:Hx'; [|exact (IH Hf)].
  rewrite (isdigit_checked _ Hx') in Hx. discriminate.
Qed.

Lemma component_checked (x : string) (n : Z) :
  VersionChecked.component x = Ok n -> component x = n.
Proof.
  unfold VersionChecked.component, component.
  destruct (VersionChecked.isdigit x) eqn:Hx.
  - intros Hi. destruct (int_checked _ _ Hi) as [Hall ->].
    rewrite (isdigit_of_checked _ Hx Hall). reflexivity.
  - assert (isdigit x = false) as ->.
    { destruct (isdigit x) eqn:Hx'; [|reflexivity].
      rewrite (isdigit_checked _ Hx') in Hx. discriminate. }
    destruct (List.filter VersionChecked.isdigit (split_on is_letter x))
      as [|t0 r] eqn:Hf.
    + intros [= <-]. rewrite (filter_isdigit_nil _ Hf). reflexivity.
    + intros Hi. destruct (int_checked _ _ Hi) as [Hall ->].
      assert (Ht0 : VersionChecked.isdigit t0 = true).
      { assert (Hin : In t0 (List.filter VersionChecked.isdigit (split_on is_letter x)))
          by (rewrite Hf; left; reflexivity).
        apply filter_In in Hin as [_ H]. exact H. }
      destruct (filter_isdigit_head _ _ _ Hf (isdigit_of_checked _ Ht0 Hall))
        as (r' & ->).
      reflexivity.
Qed.

Lemma component_raises (x : string) (e : Exn) :
  VersionChecked.component x = Raise e -> exists text, e = ValueError text.
Proof.
  unfold VersionChecked.component.
  destruct (VersionChecked.isdigit x); [apply int_raises|].
  destruct (List.filter _ _); [discriminate|apply int_raises].
Qed.

Lemma components_checked (nn : list string) :
  forall l, VersionChecked.components nn = Ok l -> l = List.map component nn.
Proof.
  induction nn as [|x nn IH]; intros l; cbn [VersionChecked.components List.map].
  - intros [= <-]. reflexivity.
  - destruct (VersionChecked.component x) as [n|e] eqn:Hx; [|discriminate].
    cbn [rbind]. destruct (VersionChecked.components nn) as [ns|e]; [|discriminate].
    cbn [rbind]. intros [= <-]. rewrite (component_checked _ _ Hx), (IH ns eq_refl).
    reflexivity.
Qed.

Lemma components_raises (nn : list string) (e : Exn) :
  VersionChecked.components nn = Raise e -> exists text, e = ValueError text.
Proof.
  induction nn as [|x nn IH]; cbn [VersionChecked.components]; [discriminate|].
  destruct (VersionChecked.component x) as [n|e'] eqn:Hx; cbn [rbind].
  - destruct (VersionChecked.components nn) as [ns|e']; cbn [rbind]; [discriminate|].
    intros [= <-]. apply IH. reflexivity.
  - intros [= <-]. exact (component_raises _ _ Hx).
Qed.

End VersionCheckedFacts.

Section VersionPrefixFacts.
Import Version.

(** When neither of what is left of the two tuples is a proper prefix of
    the other, the three loops compute the lexicographic comparison,
    whatever the two lengths. *)
Lemma loops_lex_no_proper_prefix (rest : list Z) :
  forall (k : nat) (c c' : list Z),
    drop k c = c' ->
    (rest `prefix_of` c' -> rest = c') ->
    (c' `prefix_of` rest -> c' = rest) ->
    eq_loop k rest c = Ok (lex_eq rest c')
    /\ gt_loop k rest c = Ok (lex_gt rest c')
    /\ lt_loop k rest c = Ok (lex_lt rest c').
Proof.
  induction rest as [|x rest IH]; intros k c c' Hd Hrc Hcr.
  - rewrite <- (Hrc (prefix_nil c')). repeat split.
  - destruct c' as [|y c']; [discriminate (Hcr (prefix_nil _))|].
    destruct (index_drop _ _ _ _ Hd) as [Hi Hd'].
    cbn [eq_loop gt_loop lt_loop]. rewrite Hi. cbn [rbind].
    unfold lex_eq, lex_gt, lex_lt in *. cbn [lex_compare].
    destruct (Z.compare_spec x y) as [Heq|Hlt|Hgt].
    + subst y. rewrite Z.eqb_refl, Z.ltb_irrefl. cbn [negb].
      apply (IH (S k) c c' Hd').
      * intros Hp. pose proof (Hrc (prefix_cons x _ _ Hp)) as H.
        injection H as H. exact H.
      * intros Hp. pose proof (Hcr (prefix_cons x _ _ Hp)) as H.
        injection H as H. exact H.
    + assert ((x =? y) = false) as -> by (apply Z.eqb_neq; lia).
      assert ((y <? x) = false) as -> by (apply Z.ltb_ge; lia).
      assert ((x <? y) = true) as -> by (apply Z.ltb_lt; lia).
      repeat split.
    + assert ((x =? y) = false) as -> by (apply Z.eqb_neq; lia).
      assert ((y <? x) = true) as -> by (apply Z.ltb_lt; lia).
      assert ((x <? y) = false) as -> by (apply Z.ltb_ge; lia).
      repeat split.
Qed.

End VersionPrefixFacts.

(** C9, as the code has it.  For two version strings whose integer
    sequences are equal or differ at a common position, that is, neither is
    a proper prefix of the other, [__eq__], [__gt__], [__lt__], [__ge__] and
    [__le__] return what the lexicographic comparison of the two sequences
    of [string_to_tuple] returns, whatever the numbers of components.  The
    sequences compared are the ones [string_to_tuple] returns wherever it
    returns, that is, wherever [int] accepts the digits of every
    component. *)
Theorem version_operators_lex_unless_proper_prefix (vs1 vs2 : string) :
  let a := Version.string_to_tuple vs1 in
  let b := Version.string_to_tuple vs2 in
  (a `prefix_of` b -> a = b) ->
  (b `prefix_of` a -> b = a) ->
  (Version.eq (Version.init vs1) (Version.init vs2) = Ok (Version.lex_eq a b)
   /\ Version.gt (Version.init vs1) (Version.init vs2) = Ok (Version.lex_gt a b)
   /\ Version.lt (Version.init vs1) (Version.init vs2) = Ok (Version.lex_lt a b)
   /\ Version.ge (Version.init vs1) (Version.init vs2) = Ok (Version.lex_ge a b)
   /\ Version.le (Version.init vs1) (Version.init vs2) = Ok (Version.lex_le a b))
  /\ (forall l : list Z, VersionChecked.string_to_tuple vs1 = Ok l -> l = a)
  /\ (forall l : list Z, VersionChecked.string_to_tuple vs2 = Ok l -> l = b).
Proof.
  intros a b Hab Hba.
  destruct (loops_lex_no_proper_prefix a 0 b b (drop_0 b) Hab Hba) as (He & Hg & Hlt).
  split; [|split; intros l Hl; exact (components_checked _ l Hl)].
  unfold Version.ge, Version.le, Version.eq, Version.gt, Version.lt, Version.init.
  cbn [Version.version]. fold a b. rewrite He, Hg, Hlt. cbn [rbind].
  repeat split; unfold Version.lex_eq, Version.lex_gt, Version.lex_lt,
    Version.lex_ge, Version.lex_le; destruct (Version.lex_compare a b); reflexivity.
Qed.

Lemma version_operators_lex_unless_proper_prefix_witness :
  Version.eq (Version.init "1.2") (Version.init "3") = Ok false
  /\ Version.gt (Version.init "1.2") (Version.init "3") = Ok false
  /\ Version.lt (Version.init "1.2") (Version.init "3") = Ok true
  /\ Version.ge (Version.init "1.2") (Version.init "3") = Ok false
  /\ Version.le (Version.init "1.2") (Version.init "3") = Ok true.
Proof.
  refine (proj1 (version_operators_lex_unless_proper_prefix "1.2" "3" _ _)).
  - intros [k Hk]. vm_compute in Hk. discriminate Hk.
  - intros [k Hk]. vm_compute in Hk. discriminate Hk.
Defined.

(** C9 as stated fails when one sequence is a proper prefix of the other:
    "1" against "1.1" is equal and not smaller for the operators, unequal
    and smaller for the lexicographic comparison; the other way round the
    operators raise IndexError. *)
Lemma version_operators_not_lex :
  Version.eq (Version.init "1") (Version.init "1.1") = Ok true
  /\ Version.lex_eq (Version.string_to_tuple "1") (Version.string_to_tuple "1.1") = false
  /\ Version.lt (Version.init "1") (Version.init "1.1") = Ok false
  /\ Version.lex_lt (Version.string_to_tuple "1") (Version.string_to_tuple "1.1") = true
  /\ Version.gt (Version.init "1.1") (Version.init "1") = Raise IndexError
  /\ Version.lex_gt (Version.string_to_tuple "1.1") (Version.string_to_tuple "1") = true.
Proof. repeat split. Qed.

(* ===================================================================== *)
(** * Properties: AttribDict                                              *)
(* ===================================================================== *)

Section AttribDictFacts.
Import AttribDict.
Context {V : Type}.
Implicit Types (d : gmap string V) (name : string) (v : V).

Lemma contains_insert d name v : contains (<[name := v]> d) name = true.
Proof. unfold contains. rewrite lookup_insert_eq. reflexivity. Qed.

Lemma contains_false d name : contains d name = false <-> d !! name = None.
Proof. unfold contains. destruct (d !! name); split; congruence. Qed.

Lemma getattr_fallback d name :
  is_class_attribute name = false -> getattr d name = __getattr__ d name.
Proof. intros H. unfold getattr. rewrite H. reflexivity. Qed.

Lemma __getattr___item d name v :
  __getattr__ d name = Ok (Item v) <-> getitem d name = Ok v.
Proof.
  unfold __getattr__, contains, getitem.
  destruct (d !! name) as [v'|]; cbn [rbind]; split; congruence.
Qed.

End AttribDictFacts.

(** C10, as the code has it.  For every name that is not an attribute of
    the dict class itself: after [d.name = v] both [d.name] and [d[name]]
    return [v]; attribute access and item access return the same items; and
    when the name is no key of [d], [d.name] raises AttributeError.
    [del d.name] raises AttributeError for every name that is no key. *)
Theorem attribdict_attribute_and_item_agree
        {V : Type} (d : gmap string V) (name : string) (v : V) :
  AttribDict.is_class_attribute name = false ->
  (AttribDict.getattr (AttribDict.setattr d name v) name = Ok (AttribDict.Item v)
   /\ AttribDict.getitem (AttribDict.setattr d name v) name = Ok v)
  /\ (forall x, AttribDict.getattr d name = Ok (AttribDict.Item x)
                <-> AttribDict.getitem d name = Ok x)
  /\ (AttribDict.contains d name = false ->
      AttribDict.getattr d name
      = Raise (AttributeError ("No such attribute: " ++ name)%string))
  /\ (forall name', AttribDict.contains d name' = false ->
      AttribDict.delattr d name'
      = Raise (AttributeError ("No such attribute: " ++ name')%string)).
Proof.
  intros Hname. repeat split.
  - rewrite getattr_fallback by assumption.
    apply __getattr___item. unfold AttribDict.setattr, AttribDict.__setattr__,
      AttribDict.getitem. rewrite lookup_insert_eq. reflexivity.
  - unfold AttribDict.setattr, AttribDict.__setattr__, AttribDict.getitem.
    rewrite lookup_insert_eq. reflexivity.
  - rewrite getattr_fallback by assumption. apply __getattr___item.
  - rewrite getattr_fallback by assumption. apply __getattr___item.
  - intros Hc. rewrite getattr_fallback by assumption.
    unfold AttribDict.__getattr__. rewrite Hc. reflexivity.
  - intros name' Hc. unfold AttribDict.delattr, AttribDict.__delattr__.
    rewrite Hc. reflexivity.
Qed.

Lemma attribdict_attribute_and_item_agree_witness :
  AttribDict.is_class_attribute "host" = false
  /\ AttribDict.getattr (AttribDict.setattr (∅ : gmap string Z) "host" 7) "host"
     = Ok (AttribDict.Item 7)
  /\ AttribDict.getitem (AttribDict.setattr (∅ : gmap string Z) "host" 7) "host"
     = Ok 7.
Proof.
  split; [reflexivity|].
  exact (proj1 (attribdict_attribute_and_item_agree
                  (∅ : gmap string Z) "host" 7 eq_refl)).
Defined.

(** C10 as stated fails for a name that the dict class defines: after
    [d.keys = 5] the item [d['keys']] is 5 while [d.keys] is still the
    method; and on an empty [d], where "keys" is no key, [d.keys] raises
    nothing. *)
Lemma attribdict_class_attribute_shadows :
  AttribDict.getitem (AttribDict.setattr (∅ : gmap string Z) "keys" 5) "keys" = Ok 5
  /\ AttribDict.getattr (AttribDict.setattr (∅ : gmap string Z) "keys" 5) "keys"
     = Ok (AttribDict.ClassAttr "keys")
  /\ AttribDict.contains (∅ : gmap string Z) "keys" = false
  /\ AttribDict.getattr (∅ : gmap string Z) "keys" = Ok (AttribDict.ClassAttr "keys").
Proof. repeat split. Qed.

(* ===================================================================== *)
(** * Properties: the ingest buffer                                       *)
(* ===================================================================== *)

Section BufferFacts.
Import Client.

Lemma append_spec (trace : Trace) (self : t) :
  append trace self
  = ({| recorder_map := recorder_map self; data_dir := data_dir self;
        stream := (stream self ++ [trace])%list; logger := logger self |}, Ok tt).
Proof. reflexivity. Qed.

Lemma drain_spec (self : t) :
  drain self
  = ({| recorder_map := recorder_map self; data_dir := data_dir self;
        stream := []; logger := logger self |}, Ok (stream self)).
Proof. reflexivity. Qed.

Lemma run_ops_append (trace : Trace) (rest : list buffer_op) (self : t) :
  run_ops (Append trace :: rest) self = run_ops rest (fst (append trace self)).
Proof. reflexivity. Qed.

Lemma run_ops_drain (rest : list buffer_op) (self : t) :
  run_ops (Drain :: rest) self
  = (stream self :: fst (run_ops rest (fst (drain self))),
     snd (run_ops rest (fst (drain self)))).
Proof.
  change (run_ops (Drain :: rest) self)
    with (let '(drained, final) := run_ops rest (fst (drain self)) in
          (stream self :: drained, final)).
  destruct (run_ops rest _). reflexivity.
Qed.

(** Nothing is lost and nothing is made up, and the order of arrival is
    kept: what was in the buffer and what was appended is what the drains
    returned followed by what is still in the buffer. *)
Lemma run_ops_conserves (ops : list buffer_op) :
  forall self : t,
    (stream self ++ appended ops
     = concat (fst (run_ops ops self)) ++ stream (snd (run_ops ops self)))%list.
Proof.
  induction ops as [|[trace|] ops IH]; intros self0.
  - cbn. rewrite app_nil_r. reflexivity.
  - rewrite run_ops_append, <- IH, append_spec. cbn [fst stream appended].
    rewrite <- app_assoc. reflexivity.
  - rewrite run_ops_drain. cbn [fst snd concat appended].
    rewrite <- app_assoc, <- IH, drain_spec. reflexivity.
Qed.

(** A history that ends with a drain leaves the buffer empty. *)
Lemma run_ops_last_drain (ops : list buffer_op) :
  forall self : t,
    last ops = Some Drain -> stream (snd (run_ops ops self)) = [].
Proof.
  induction ops as [|op ops IH]; intros self0 Hlast; [discriminate|].
  destruct ops as [|op' ops].
  - cbn in Hlast. injection Hlast as ->. reflexivity.
  - assert (Hlast' : last (op' :: ops) = Some Drain) by exact Hlast.
    destruct op as [trace|].
    + rewrite run_ops_append. apply IH, Hlast'.
    + rewrite run_ops_drain. cbn [snd]. apply IH, Hlast'.
Qed.

(** In a list of lists whose concatenation has no duplicates, two
    different positions hold disjoint lists. *)
Lemma concat_NoDup_disjoint {A : Type} (ls : list (list A)) :
  NoDup (concat ls) ->
  forall (i j : nat) (a b : list A) (x : A),
    i <> j -> ls !! i = Some a -> ls !! j = Some b -> x ∈ a -> x ∉ b.
Proof.
  induction ls as [|l ls IH]; intros Hnd i j a b x Hij Hi Hj Ha Hb.
  - discriminate.
  - cbn [concat] in Hnd. apply NoDup_app in Hnd as (Hl & Hdisj & Hrest).
    assert (Hin : forall (k : nat) (c : list A), ls !! k = Some c -> x ∈ c ->
                                                 x ∈ concat ls).
    { intros k c Hk Hc. apply list_elem_of_In, in_concat. exists c. split.
      - apply list_elem_of_In, list_elem_of_lookup. eauto.
      - apply list_elem_of_In, Hc. }
    destruct i as [|i], j as [|j]; cbn in Hi, Hj.
    + congruence.
    + injection Hi as <-. exact (Hdisj x Ha (Hin j b Hj Hb)).
    + injection Hj as <-. exact (Hdisj x Hb (Hin i a Hi Ha)).
    + apply (IH Hrest i j a b x); [congruence|assumption..].
Qed.

End BufferFacts.

(** C2, as the code has it.  For every history of appends and drains run
    one at a time on an empty buffer: the drain results together with what
    is still in the buffer are, as multisets, the appended batches; the
    drain results alone are when the history ends with a drain; and when
    the appended batches are distinct, no batch is in the result of two
    drains. *)
Theorem ingest_buffer_conservation (ops : list Client.buffer_op) (self : Client.t) :
  Client.stream self = [] ->
  let drained := fst (Client.run_ops ops self) in
  let final := snd (Client.run_ops ops self) in
  (concat drained ++ Client.stream final)%list ≡ₚ Client.appended ops
  /\ (last ops = Some Client.Drain -> concat drained ≡ₚ Client.appended ops)
  /\ (NoDup (Client.appended ops) ->
      forall (i j : nat) (di dj : Client.Stream) (x : Client.Trace),
        i <> j -> drained !! i = Some di -> drained !! j = Some dj ->
        x ∈ di -> x ∉ dj).
Proof.
  intros Hempty drained final.
  pose proof (run_ops_conserves ops self) as Hcons.
  rewrite Hempty in Hcons. cbn [app] in Hcons. fold drained final in Hcons.
  split; [|split].
  - rewrite <- Hcons. reflexivity.
  - intros Hlast. pose proof (run_ops_last_drain ops self Hlast) as Hfinal.
    fold final in Hfinal. rewrite Hfinal, app_nil_r in Hcons.
    rewrite <- Hcons. reflexivity.
  - intros Hnd. apply concat_NoDup_disjoint.
    rewrite Hcons in Hnd. apply NoDup_app in Hnd as (Hnd & _). exact Hnd.
Qed.

Lemma ingest_buffer_conservation_witness :
  let ops := [Client.Append Sample.batch1; Client.Drain;
              Client.Append Sample.batch2; Client.Drain] in
  Client.stream Sample.client = []
  /\ concat (fst (Client.run_ops ops Sample.client)) ≡ₚ Client.appended ops.
Proof.
  intros ops. split; [reflexivity|].
  exact (proj1 (proj2 (ingest_buffer_conservation ops Sample.client eq_refl)) eq_refl).
Defined.

(** C2 as stated fails for a history that does not end with a drain: after
    one append and no drain the drain results are empty while one batch was
    appended. *)
Lemma drains_miss_undrained_batch :
  let ops := [Client.Append Sample.batch1] in
  ~ (concat (fst (Client.run_ops ops Sample.client)) ≡ₚ Client.appended ops).
Proof.
  intros ops H. cbn in H. apply Permutation_nil_l in H. discriminate H.
Qed.

(* ===================================================================== *)
(** * Properties: on_data                                                 *)
(* ===================================================================== *)

Section OnDataFacts.
Import Client.

Lemma on_data_unmapped (trace : Trace) (self : t) :
  recorder_map self !! source_id trace = None ->
  on_data trace self
  = ({| recorder_map := recorder_map self; data_dir := data_dir self;
        stream := stream self;
        logger := (logger self ++ [(DEBUG, Text "Received trace:")])
                    ++ [(DEBUG, OfTrace trace)] |},
     Raise (KeyError (source_id trace))).
Proof.
  intros Hmiss. unfold on_data, bind, log, modify, gets, lift, getitem.
  cbn. rewrite Hmiss. reflexivity.
Qed.

Lemma on_data_mapped (trace : Trace) (cur_nslc : NSLC) (self : t) :
  recorder_map self !! source_id trace = Some cur_nslc ->
  on_data trace self
  = ({| recorder_map := recorder_map self; data_dir := data_dir self;
        stream := stream self ++ [set_nslc trace cur_nslc];
        logger := logger self ++ [(DEBUG, Text "Received trace:");
                                  (DEBUG, OfTrace trace);
                                  (DEBUG, Text "Changed metadata:");
                                  (DEBUG, OfTrace (set_nslc trace cur_nslc))] |},
     Ok tt).
Proof.
  intros Hhit. unfold on_data, bind, log, modify, gets, lift, getitem, append,
    set_stream.
  cbn. rewrite Hhit. cbn.
  rewrite <- !app_assoc. reflexivity.
Qed.

End OnDataFacts.

(** C3, as the code has it.  For a batch whose SourceId is not in the
    table, [on_data] raises KeyError with that identifier out of the
    callback; it has logged the two debug lines on the received trace and
    nothing else, and the buffer and the table are as before.  A later call
    for a batch with a mapped SourceId returns and appends the rewritten
    batch. *)
Theorem on_data_unmapped_raises_keyerror (trace : Client.Trace) (self : Client.t) :
  Client.recorder_map self !! Client.source_id trace = None ->
  let self' := fst (Client.on_data trace self) in
  snd (Client.on_data trace self) = Raise (KeyError (Client.source_id trace))
  /\ Client.stream self' = Client.stream self
  /\ Client.recorder_map self' = Client.recorder_map self
  /\ Client.logger self'
     = Client.logger self ++ [(DEBUG, Client.Text "Received trace:");
                              (DEBUG, Client.OfTrace trace)]
  /\ forall (next : Client.Trace) (cur_nslc : Client.NSLC),
      Client.recorder_map self !! Client.source_id next = Some cur_nslc ->
      snd (Client.on_data next self') = Ok tt
      /\ Client.stream (fst (Client.on_data next self'))
         = Client.stream self ++ [Client.set_nslc next cur_nslc].
Proof.
  intros Hmiss self'. subst self'. rewrite (on_data_unmapped _ _ Hmiss). cbn [fst snd].
  split; [reflexivity|]. split; [reflexivity|]. split; [reflexivity|]. split.
  - cbn. rewrite <- app_assoc. reflexivity.
  - intros next cur_nslc Hhit. erewrite on_data_mapped by exact Hhit.
    split; reflexivity.
Qed.

Lemma on_data_unmapped_raises_keyerror_witness :
  Client.recorder_map Sample.client !! Client.source_id Sample.stray = None
  /\ snd (Client.on_data Sample.stray Sample.client)
     = Raise (KeyError ["XX"; "FFFF"; "00"; "001"]).
Proof.
  split; [reflexivity|].
  exact (proj1 (on_data_unmapped_raises_keyerror Sample.stray Sample.client eq_refl)).
Defined.

(** C3 as stated fails: for the batch of an unknown recorder [on_data] does
    not return, it raises; and the log holds no record of the miss, only
    the two debug lines written before the lookup. *)
Lemma on_data_does_not_return_on_unmapped :
  Client.recorder_map Sample.client !! Client.source_id Sample.stray = None
  /\ is_ok (snd (Client.on_data Sample.stray Sample.client)) = false
  /\ Client.logger (fst (Client.on_data Sample.stray Sample.client))
     = [(DEBUG, Client.Text "Received trace:"); (DEBUG, Client.OfTrace Sample.stray)].
Proof. split; [reflexivity|]. split; reflexivity. Qed.

Example on_data_rewrites_mapped_batch :
  Client.stream (fst (Client.on_data Sample.batch1 Sample.client))
  = [Client.set_nslc Sample.batch1 ("MSSNet", "DUBA", "00", "Hparallel")].
Proof. reflexivity. Qed.

(* ===================================================================== *)
(** * Properties: get_recorder_mappings                                   *)
(* ===================================================================== *)

Section MappingFacts.
Import Client.
Implicit Types (m : gmap (list string) NSLC) (now : UTCDateTime).

(** A channel without a recorder stream: [stream_tb[0]] raises. *)
Lemma map_channel_unbound now (cur_channel : Channel) m :
  get_stream cur_channel now = [] ->
  map_channel now cur_channel m = Raise IndexError.
Proof. intros H. unfold map_channel. rewrite H. reflexivity. Qed.

(** Whatever goes wrong in the body of the channel loop is an
    IndexError. *)
Lemma map_channel_raises now (cur_channel : Channel) m (e : Exn) :
  map_channel now cur_channel m = Raise e -> e = IndexError.
Proof.
  unfold map_channel, index.
  destruct (get_stream cur_channel now !! 0%nat) as [tb|]; cbn [rbind];
    [|congruence].
  destruct (str_split ":" (name tb) !! 0%nat); cbn [rbind]; [|congruence].
  destruct (str_split ":" (name tb) !! 1%nat); cbn [rbind]; congruence.
Qed.

Lemma map_channels_unbound now (chans : list Channel) :
  forall m,
    (exists cur_channel, cur_channel ∈ chans /\ get_stream cur_channel now = []) ->
    map_channels now chans m = Raise IndexError.
Proof.
  induction chans as [|c chans IH]; intros m (ch & Hin & Hnone).
  - inversion Hin.
  - cbn [map_channels].
    destruct (map_channel now c m) as [m'|e] eqn:Hc; cbn [rbind].
    + apply IH. exists ch. split; [|exact Hnone].
      apply elem_of_cons in Hin as [->|Hin]; [|exact Hin].
      rewrite (map_channel_unbound _ _ _ Hnone) in Hc. discriminate.
    + f_equal. exact (map_channel_raises _ _ _ _ Hc).
Qed.

Lemma map_channels_raises now (chans : list Channel) :
  forall m (e : Exn), map_channels now chans m = Raise e -> e = IndexError.
Proof.
  induction chans as [|c chans IH]; intros m e; cbn [map_channels]; [congruence|].
  destruct (map_channel now c m) as [m'|e'] eqn:Hc; cbn [rbind].
  - apply IH.
  - intros [= <-]. exact (map_channel_raises _ _ _ _ Hc).
Qed.

Lemma map_stations_unbound now (station_list : list Station) :
  forall m,
    (exists station cur_channel,
        station ∈ station_list /\ cur_channel ∈ channels station
        /\ get_stream cur_channel now = []) ->
    map_stations now station_list m = Raise IndexError.
Proof.
  induction station_list as [|s station_list IH]; intros m (st & ch & Hs & Hin & Hnone).
  - inversion Hs.
  - cbn [map_stations].
    destruct (map_channels now (channels s) m) as [m'|e] eqn:Hc; cbn [rbind].
    + apply IH. exists st, ch. split; [|split; assumption].
      apply elem_of_cons in Hs as [->|Hs]; [|exact Hs].
      rewrite map_channels_unbound in Hc by eauto. discriminate.
    + f_equal. exact (map_channels_raises _ _ _ _ Hc).
Qed.

End MappingFacts.

(** C4, as the code has it.  When the stations are found and one of their
    channels has no active stream binding at query time, the channel is not
    skipped: [get_recorder_mappings] raises IndexError, logs nothing and
    returns no table. *)
Theorem get_recorder_mappings_unbound_channel_raises
        (inventory : Client.Inventory) (now : Client.UTCDateTime)
        (station_nsl : option (list Client.Nsl))
        (logger : list (level * Client.msg))
        (station_list : list Client.Station)
        (station : Client.Station) (cur_channel : Client.Channel) :
  Client.select_stations inventory station_nsl = Ok station_list ->
  station ∈ station_list ->
  cur_channel ∈ Client.channels station ->
  Client.get_stream cur_channel now = [] ->
  Client.get_recorder_mappings inventory now station_nsl logger
  = (logger, Raise IndexError).
Proof.
  intros Hsel Hs Hc Hnone.
  unfold Client.get_recorder_mappings, bind, lift. rewrite Hsel.
  rewrite map_stations_unbound by eauto. reflexivity.
Qed.

Lemma get_recorder_mappings_unbound_channel_raises_witness :
  Client.get_recorder_mappings Sample.inventory_unbound Sample.now None []
  = ([], Raise IndexError).
Proof.
  apply (get_recorder_mappings_unbound_channel_raises
           Sample.inventory_unbound Sample.now None [] [Sample.duba_two]
           Sample.duba_two Sample.unbound_channel).
  - reflexivity.
  - apply list_elem_of_In. simpl. left. reflexivity.
  - apply list_elem_of_In. simpl. left. reflexivity.
  - reflexivity.
Defined.

(** C4 as stated fails: with one channel unbound and one bound, the build
    does not skip the first and map the second, it raises; without the
    unbound channel the same build returns the table. *)
Lemma unbound_channel_is_not_skipped :
  Client.channels Sample.duba_two = [Sample.unbound_channel; Sample.bound_channel]
  /\ Client.get_stream Sample.unbound_channel Sample.now = []
  /\ snd (Client.get_recorder_mappings Sample.inventory_unbound Sample.now None [])
     = Raise IndexError
  /\ snd (Client.get_recorder_mappings Sample.inventory Sample.now None [])
     = Ok (Client.recorder_map Sample.client).
Proof. repeat split. Qed.

Section StationFacts.
Import Client.

(** More than one match: the ValueError of the first test. *)
Lemma find_station_ambiguous (inventory : Inventory) (cur_nsl : Nsl)
      (network name location : string) :
  nsl_index cur_nsl 0 = Ok network ->
  nsl_index cur_nsl 1 = Ok name ->
  nsl_index cur_nsl 2 = Ok location ->
  (1 < length (get_station inventory (Some network) (Some name) (Some location)))%nat ->
  find_station inventory cur_nsl
  = Raise (ValueError "There are more than one stations. This is not yet supported.").
Proof.
  intros H0 H1 H2 Hlen. unfold find_station. rewrite H0, H1, H2. cbn [rbind].
  apply Nat.ltb_lt in Hlen. rewrite Hlen. reflexivity.
Qed.

(** No match, the station asked for as a string: the ValueError of the
    second test. *)
Lemma find_station_unknown_str (inventory : Inventory) (s : string)
      (network name location : string) :
  nsl_index (NslStr s) 0 = Ok network ->
  nsl_index (NslStr s) 1 = Ok name ->
  nsl_index (NslStr s) 2 = Ok location ->
  get_station inventory (Some network) (Some name) (Some location) = [] ->
  find_station inventory (NslStr s)
  = Raise (ValueError ("No station found for " ++ s ++ ". Check the input file.")%string).
Proof.
  intros H0 H1 H2 Hnone. unfold find_station. rewrite H0, H1, H2. cbn [rbind].
  rewrite Hnone. reflexivity.
Qed.

(** No match, the station asked for as a list of codes: building the
    message of the second ValueError raises TypeError. *)
Lemma find_station_unknown_list (inventory : Inventory)
      (network name location : string) (more : list string) :
  get_station inventory (Some network) (Some name) (Some location) = [] ->
  find_station inventory (NslList (network :: name :: location :: more))
  = Raise (TypeError "unsupported format string passed to list.__format__").
Proof. intros Hnone. unfold find_station. cbn. rewrite Hnone. reflexivity. Qed.

(** A station list that cannot be resolved ends the call before the
    table is touched: nothing is logged and nothing is returned. *)
Lemma get_recorder_mappings_unresolved (inventory : Inventory) (now : UTCDateTime)
      (station_nsl : option (list Nsl)) (logger : list (level * msg)) (e : Exn) :
  select_stations inventory station_nsl = Raise e ->
  get_recorder_mappings inventory now station_nsl logger = (logger, Raise e).
Proof.
  intros H. unfold get_recorder_mappings, bind, lift. rewrite H. reflexivity.
Qed.

(** The first requested station that cannot be found ends the loop with
    its exception, wherever it stands in the list. *)
Lemma find_stations_fails_at (inventory : Inventory) (before : list Nsl) :
  forall (cur_nsl : Nsl) (rest : list Nsl) (acc : list Station) (e : Exn),
    Forall (fun nsl => is_ok (find_station inventory nsl) = true) before ->
    find_station inventory cur_nsl = Raise e ->
    find_stations inventory (before ++ cur_nsl :: rest) acc = Raise e.
Proof.
  induction before as [|b before IH]; intros cur_nsl rest acc e Hbefore Hcur.
  - cbn [app find_stations]. rewrite Hcur. reflexivity.
  - apply Forall_cons in Hbefore as [Hb Hbefore].
    cbn [app find_stations].
    destruct (find_station inventory b) as [s|]; [|discriminate Hb].
    cbn [rbind]. apply IH; assumption.
Qed.

(** Whatever exception ends the search for the stations is the outcome of
    the whole call. *)
Lemma get_recorder_mappings_station_failure (inventory : Inventory)
      (now : UTCDateTime) (logger : list (level * msg))
      (before : list Nsl) (cur_nsl : Nsl) (rest : list Nsl) (e : Exn) :
  Forall (fun nsl => is_ok (find_station inventory nsl) = true) before ->
  find_station inventory cur_nsl = Raise e ->
  get_recorder_mappings inventory now (Some (before ++ cur_nsl :: rest)) logger
  = (logger, Raise e).
Proof.
  intros Hbefore Hcur. apply get_recorder_mappings_unresolved.
  apply find_stations_fails_at; assumption.
Qed.

End StationFacts.

(** C5 on the code: a requested station, given as the list of its three
    codes, for which the inventory has no match, the stations requested
    before it being found.  The call fails and returns no table, but with
    the TypeError raised while the message of the intended "No station
    found" error is formatted. *)
Theorem unknown_station_raises_typeerror
        (inventory : Client.Inventory) (now : Client.UTCDateTime)
        (logger : list (level * Client.msg))
        (before : list Client.Nsl) (network name location : string)
        (rest : list Client.Nsl) :
  Forall (fun nsl => is_ok (Client.find_station inventory nsl) = true) before ->
  Client.get_station inventory (Some network) (Some name) (Some location) = [] ->
  Client.get_recorder_mappings inventory now
    (Some (before ++ Client.NslList [network; name; location] :: rest)) logger
  = (logger, Raise (TypeError "unsupported format string passed to list.__format__")).
Proof.
  intros Hbefore Hnone. apply get_recorder_mappings_station_failure; [exact Hbefore|].
  apply find_station_unknown_list, Hnone.
Qed.

Lemma unknown_station_raises_typeerror_witness :
  Client.get_recorder_mappings Sample.inventory Sample.now
    (Some [Client.NslList ["MSSNet"; "DUBA"; "00"];
           Client.NslList ["MSSNet"; "NOPE"; "00"]]) []
  = ([], Raise (TypeError "unsupported format string passed to list.__format__")).
Proof.
  refine (unknown_station_raises_typeerror Sample.inventory Sample.now []
            [Client.NslList ["MSSNet"; "DUBA"; "00"]] "MSSNet" "NOPE" "00" [] _ eq_refl).
  repeat constructor.
Defined.

Example ambiguous_station_raises_valueerror :
  Client.get_recorder_mappings
    (Sample.inventory_of [("DUBA", Sample.duba); ("DUBA", Sample.duba_two)])
    Sample.now (Some [Client.NslList ["MSSNet"; "DUBA"; "00"]]) []
  = ([], Raise (ValueError "There are more than one stations. This is not yet supported.")).
Proof. reflexivity. Qed.

(* ===================================================================== *)
(** * Properties: save_data                                               *)
(* ===================================================================== *)

Section SaveDataFacts.
Import Client.
Variable merge : Stream -> result Stream.
Variable split : Stream -> Stream.
Variable isoformat : UTCDateTime -> string.
Variable write : gset string -> string -> Stream -> gset string * option Exn.

(** [save_data] up to the time span: with nothing to export, [min] raises
    before anything touches the files. *)
Lemma save_data_nothing_to_export (w : world) :
  merge (stream (self w)) = Ok [] ->
  save_data merge split isoformat write w
  = (drained_world w [], Raise (ValueError "min() arg is an empty sequence")).
Proof.
  intros Hm. unfold save_data, bind, on_self, log, drain, modify, gets, lift,
    set_stream, ret, copy. cbn. rewrite Hm. cbn.
  unfold drained_world, drained_self. rewrite <- app_assoc. reflexivity.
Qed.

(** [save_data] up to the call of the codec. *)
Lemma save_data_to_codec (w : world) (export_stream : Stream)
      (cur_start cur_end : UTCDateTime) :
  merge (stream (self w)) = Ok export_stream ->
  py_min (List.map starttime export_stream) = Ok cur_start ->
  py_max (List.map endtime export_stream) = Ok cur_end ->
  let cur_filepath := export_path isoformat (data_dir (self w)) cur_start cur_end in
  save_data merge split isoformat write w
  = match stream_write write cur_filepath export_stream
            (drained_world w export_stream) with
    | (w', Raise (NotImplementedError _)) =>
        on_self (log ERROR (Text "Error when writing the miniseed file with masked data. Clearing the stream and #going on.")) w'
    | (w', Raise (ValueError _)) =>
        (run on_self (log INFO (Text "Not enough data to write a miniseed record."));
         os_remove cur_filepath) w'
    | (w', r) => (w', r)
    end.
Proof.
  intros Hm Hmin Hmax cur_filepath.
  unfold save_data, bind, on_self, log, drain, modify, gets, lift,
    set_stream, ret, copy. cbn. rewrite Hm. cbn. rewrite Hmin, Hmax. cbn.
  unfold drained_world, drained_self, cur_filepath, export_path.
  rewrite <- app_assoc. reflexivity.
Qed.

End SaveDataFacts.

(** C1 on the code: a write cycle on an empty buffer.  Nothing touches the
    files and the codec is not called, but the call does not return: [min]
    of the empty list of start times raises ValueError, outside the [try]. *)
Theorem save_data_empty_buffer_raises
        (merge : Client.Stream -> result Client.Stream)
        (split : Client.Stream -> Client.Stream)
        (isoformat : Client.UTCDateTime -> string)
        (write : gset string -> string -> Client.Stream -> gset string * option Exn)
        (w : Client.world) :
  Client.stream (Client.self w) = [] ->
  merge [] = Ok [] ->
  let w' := fst (Client.save_data merge split isoformat write w) in
  snd (Client.save_data merge split isoformat write w)
  = Raise (ValueError "min() arg is an empty sequence")
  /\ Client.files w' = Client.files w
  /\ Client.codec_calls w' = Client.codec_calls w.
Proof.
  intros Hempty Hmerge w'. subst w'.
  rewrite save_data_nothing_to_export by (rewrite Hempty; exact Hmerge).
  repeat split.
Qed.

Lemma save_data_empty_buffer_raises_witness :
  snd (Client.save_data Sample.merge Sample.split Sample.isoformat (Sample.write 512)
         (Sample.world_of Sample.client))
  = Raise (ValueError "min() arg is an empty sequence").
Proof.
  exact (proj1 (save_data_empty_buffer_raises Sample.merge Sample.split
                  Sample.isoformat (Sample.write 512)
                  (Sample.world_of Sample.client) eq_refl eq_refl)).
Defined.

Section CodecCall.
Import Client.

Lemma save_data_codec_call
      (merge : Stream -> result Stream) (split : Stream -> Stream)
      (isoformat : UTCDateTime -> string)
      (write : gset string -> string -> Stream -> gset string * option Exn)
      (w : world) (export_stream : Stream) (cur_start cur_end : UTCDateTime) :
  merge (stream (self w)) = Ok export_stream ->
  py_min (List.map starttime export_stream) = Ok cur_start ->
  py_max (List.map endtime export_stream) = Ok cur_end ->
  codec_calls (fst (save_data merge split isoformat write w))
  = codec_calls w
      ++ [(export_path isoformat (data_dir (self w)) cur_start cur_end, export_stream)].
Proof.
  intros Hm Hmin Hmax.
  rewrite (save_data_to_codec _ _ _ _ _ _ _ _ Hm Hmin Hmax).
  unfold stream_write. cbn [drained_world files codec_calls self].
  destruct (write _ _ _) as [files' [e|]]; [|reflexivity].
  destruct e; try reflexivity.
  unfold bind, on_self, log, modify, os_remove. cbn.
  destruct (bool_decide _); reflexivity.
Qed.

End CodecCall.

(** C6 on the code: what the write cycle exports.  The stream handed to
    the codec is the stream as [merge] left it; the result of [split] is
    dropped, so that the cycle is the same whatever [split] returns. *)
Theorem save_data_exports_unsplit_merge
        (merge : Client.Stream -> result Client.Stream)
        (split split' : Client.Stream -> Client.Stream)
        (isoformat : Client.UTCDateTime -> string)
        (write : gset string -> string -> Client.Stream -> gset string * option Exn)
        (w : Client.world) (export_stream : Client.Stream)
        (cur_start cur_end : Client.UTCDateTime) :
  merge (Client.stream (Client.self w)) = Ok export_stream ->
  py_min (List.map Client.starttime export_stream) = Ok cur_start ->
  py_max (List.map Client.endtime export_stream) = Ok cur_end ->
  Client.save_data merge split isoformat write w
  = Client.save_data merge split' isoformat write w
  /\ Client.codec_calls (fst (Client.save_data merge split isoformat write w))
     = Client.codec_calls w
         ++ [(Client.export_path isoformat (Client.data_dir (Client.self w))
                cur_start cur_end, export_stream)].
Proof.
  intros Hm Hmin Hmax. split; [reflexivity|].
  exact (save_data_codec_call _ _ _ _ _ _ _ _ Hm Hmin Hmax).
Qed.

Lemma save_data_exports_unsplit_merge_witness :
  let w := Sample.world_of Sample.client_two_batches in
  Client.codec_calls
    (fst (Client.save_data Sample.merge Sample.split Sample.isoformat (Sample.write 1) w))
  = [] ++ [(Client.export_path Sample.isoformat "/data/mseed"
              1667476800000000000 1667476822000000000,
            [Sample.join Sample.remapped1 Sample.remapped2])].
Proof.
  intros w.
  exact (proj2 (save_data_exports_unsplit_merge
                  Sample.merge Sample.split Sample.split Sample.isoformat
                  (Sample.write 1) w
                  [Sample.join Sample.remapped1 Sample.remapped2]
                  1667476800000000000 1667476822000000000
                  eq_refl eq_refl eq_refl)).
Defined.

(** The cycle on two batches of one identifier with a gap between them, run
    with the stand-ins: the codec is handed one trace with masked samples
    where splitting gives two runs, refuses it, and no file is written. *)
Example save_data_gap_is_exported_as_one_trace :
  let w := Sample.world_of Sample.client_two_batches in
  let w' := fst (Client.save_data Sample.merge Sample.split Sample.isoformat
                   (Sample.write 1) w) in
  Client.stream Sample.client_two_batches = [Sample.remapped1; Sample.remapped2]
  /\ List.map snd (Client.codec_calls w')
     = [[Sample.join Sample.remapped1 Sample.remapped2]]
  /\ Sample.split [Sample.join Sample.remapped1 Sample.remapped2]
     = [Sample.remapped1; Sample.remapped2]
  /\ Client.files w' = ∅
  /\ last (Client.logger (Client.self w'))
     = Some (ERROR, Client.Text "Error when writing the miniseed file with masked data. Clearing the stream and #going on.").
Proof. repeat split. Qed.

(** C8.  When the codec raises the ValueError of too little data and has
    left a file at the export path, the write cycle logs the condition at
    informational level, removes the file and returns; the files are those
    the codec left less the export path. *)
Theorem save_data_insufficient_data_cleans_up
        (merge : Client.Stream -> result Client.Stream)
        (split : Client.Stream -> Client.Stream)
        (isoformat : Client.UTCDateTime -> string)
        (write : gset string -> string -> Client.Stream -> gset string * option Exn)
        (w : Client.world) (export_stream : Client.Stream)
        (cur_start cur_end : Client.UTCDateTime)
        (files' : gset string) (text : string) :
  let cur_filepath :=
    Client.export_path isoformat (Client.data_dir (Client.self w)) cur_start cur_end in
  merge (Client.stream (Client.self w)) = Ok export_stream ->
  py_min (List.map Client.starttime export_stream) = Ok cur_start ->
  py_max (List.map Client.endtime export_stream) = Ok cur_end ->
  write (Client.files w) cur_filepath export_stream = (files', Some (ValueError text)) ->
  cur_filepath ∈ files' ->
  let w' := fst (Client.save_data merge split isoformat write w) in
  snd (Client.save_data merge split isoformat write w) = Ok tt
  /\ Client.files w' = files' ∖ {[cur_filepath]}
  /\ (cur_filepath ∉ Client.files w')
  /\ Client.logger (Client.self w')
     = Client.logger (Client.self w)
         ++ [(INFO, Client.Text "Saving the data.");
             (DEBUG, Client.OfStream export_stream);
             (INFO, Client.Text "Not enough data to write a miniseed record.")].
Proof.
  intros cur_filepath Hm Hmin Hmax Hw Hin w'. subst w'.
  rewrite (save_data_to_codec _ _ _ _ _ _ _ _ Hm Hmin Hmax).
  fold cur_filepath. unfold Client.stream_write.
  cbn [Client.drained_world Client.files Client.codec_calls Client.self].
  rewrite Hw. unfold bind, Client.on_self, Client.log, modify, Client.os_remove.
  cbn. rewrite bool_decide_eq_true_2 by exact Hin. cbn.
  split; [reflexivity|]. split; [reflexivity|].
  split; [apply not_elem_of_difference; right; apply elem_of_singleton; reflexivity|].
  rewrite <- app_assoc. reflexivity.
Qed.

Lemma save_data_insufficient_data_cleans_up_witness :
  let w := Sample.world_of Sample.client_short_batch in
  snd (Client.save_data Sample.merge Sample.split Sample.isoformat (Sample.write 512) w)
  = Ok tt.
Proof.
  intros w.
  refine (proj1 (save_data_insufficient_data_cleans_up
                   Sample.merge Sample.split Sample.isoformat (Sample.write 512) w
                   [Sample.remapped2] 1667476820000000000 1667476822000000000
                   ({[ Client.export_path Sample.isoformat "/data/mseed"
                         1667476820000000000 1667476822000000000 ]} ∪ ∅)
                   "Did not write any data for trace"
                   eq_refl eq_refl eq_refl eq_refl _)).
  apply elem_of_union_l, elem_of_singleton. reflexivity.
Defined.

(* ===================================================================== *)
(** * Properties: task_timer                                              *)
(* ===================================================================== *)

Section TimerFacts.
Import TaskTimer.
Local Open Scope Q_scope.

Variable interval : Z.
Hypothesis interval_pos : (0 < interval)%Z.

Let I : Q := inject_Z interval.

Lemma I_pos : 0 < I.
Proof.
  change (inject_Z 0 < inject_Z interval). rewrite <- Zlt_Qlt. exact interval_pos.
Qed.

Lemma I_neq : ~ I == 0.
Proof. intros H. pose proof I_pos as Hp. rewrite H in Hp. discriminate Hp. Qed.

Lemma float_mod_pos (t : Q) : float_mod t interval = Ok (remainder interval t).
Proof.
  unfold float_mod.
  assert ((interval =? 0)%Z = false) as -> by (apply Z.eqb_neq; lia).
  reflexivity.
Qed.

Lemma remainder_range (t : Q) : 0 <= remainder interval t /\ remainder interval t < I.
Proof.
  unfold TaskTimer.remainder. fold I.
  assert (Ht : t == I * (t / I)) by (field; exact I_neq).
  pose proof (Qfloor_le (t / I)) as Hlo.
  pose proof (Qlt_floor (t / I)) as Hhi.
  rewrite inject_Z_plus in Hhi.
  apply (Qmult_le_l _ _ I I_pos) in Hlo.
  apply (Qmult_lt_l _ _ I I_pos) in Hhi.
  rewrite <- Ht in Hlo, Hhi.
  split.
  - apply (Qplus_le_l _ _ (I * inject_Z (Qfloor (t / I)))).
    ring_simplify. exact Hlo.
  - apply (Qplus_lt_l _ _ (I * inject_Z (Qfloor (t / I)))).
    ring_simplify. ring_simplify in Hhi. exact Hhi.
Qed.

(** Sleeping for the computed delay ends on the next boundary. *)
Lemma delay_reaches_boundary (t : Q) :
  t + (I - remainder interval t) == next_boundary interval t.
Proof.
  unfold next_boundary, TaskTimer.remainder. rewrite inject_Z_mult, inject_Z_plus.
  fold I. ring.
Qed.

Lemma delay_nonneg (t : Q) : Qle_bool 0 (I - remainder interval t) = true.
Proof.
  apply Qle_bool_iff. destruct (remainder_range t) as [_ Hlt].
  apply Qlt_le_weak. apply (Qplus_lt_l _ _ (remainder interval t)). ring_simplify. exact Hlt.
Qed.

(** The boundary after [t] is a multiple of the interval, lies after [t],
    and no multiple of the interval lies strictly between. *)
Lemma next_boundary_is_next (t : Q) :
  next_boundary interval t = inject_Z (interval * (Qfloor (t / I) + 1))
  /\ t < next_boundary interval t
  /\ next_boundary interval t <= t + I.
Proof.
  split; [reflexivity|].
  rewrite <- (delay_reaches_boundary t). destruct (remainder_range t) as [Hlo Hhi].
  split.
  - apply (Qplus_lt_l _ _ (remainder interval t - t)). ring_simplify. exact Hhi.
  - apply (Qplus_le_l _ _ (remainder interval t - t - I)). ring_simplify. exact Hlo.
Qed.

Lemma sleep_to_next_interval_spec (fmt : string) (st : state) :
  sleep_to_next_interval fmt interval st
  = ({| clock := clock st + (I - remainder interval (clock st));
        stop_event := stop_event st; calls := calls st;
        logger := logger st ++ [(INFO, Sleeping fmt (I - remainder interval (clock st)))] |},
     Ok tt).
Proof.
  unfold sleep_to_next_interval, bind, gets, lift. rewrite float_mod_pos.
  unfold log, modify, sleep. fold I. cbn [clock]. rewrite delay_nonneg. reflexivity.
Qed.

Lemma on_boundaries_snoc (cs : list (Q * Q)) :
  forall (t called back : Q),
    on_boundaries interval t (cs ++ [(called, back)])
    <-> on_boundaries interval t cs
        /\ called == next_boundary interval (last_back t cs).
Proof.
  induction cs as [|[c b] cs IH]; intros t called back; cbn [app on_boundaries last_back].
  - tauto.
  - rewrite IH. tauto.
Qed.

Lemma last_back_snoc (cs : list (Q * Q)) :
  forall (t called back : Q), last_back t (cs ++ [(called, back)]) = back.
Proof.
  induction cs as [|[c b] cs IH]; intros t called back; cbn [app last_back];
    [reflexivity|apply IH].
Qed.

Variable callback : Q -> Q * option Exn.
Variable stop_requested : Q -> bool.

(** One guarded call: it always comes back to the loop, and the call is
    on record with the clock at which it was made. *)
Lemma guarded_callback_spec (st : state) :
  exists st',
    guarded_callback callback st = (st', Ok tt)
    /\ calls st' = calls st ++ [(clock st, clock st')].
Proof.
  unfold guarded_callback, bind, log, modify, run_callback, set_stop. cbn.
  destruct (callback (clock st)) as [duration [e|]]; cbn; eexists; split;
    reflexivity.
Qed.

(** One round of the loop from a boundary ends on the boundary after the
    clock at which the callback came back. *)
Lemma round_keeps_ready (t0 : Q) (fmt : string) (st st' : state) :
  ready interval t0 st ->
  guarded_callback callback st = (st', Ok tt) ->
  calls st' = calls st ++ [(clock st, clock st')] ->
  ready interval t0 (fst (sleep_to_next_interval fmt interval st')).
Proof.
  intros [Hcs Hclock] _ Hcalls. rewrite sleep_to_next_interval_spec.
  unfold ready. cbn [fst calls clock]. rewrite Hcalls. split.
  - apply on_boundaries_snoc. split; assumption.
  - rewrite last_back_snoc. apply delay_reaches_boundary.
Qed.

Lemma loop_keeps_ready (t0 : Q) (fuel : nat) :
  forall st : state,
    ready interval t0 st ->
    ready interval t0 (fst (loop callback stop_requested fuel interval st)).
Proof.
  induction fuel as [|fuel IH]; intros st Hready; [exact Hready|].
  cbn [loop]. unfold bind at 1. unfold is_set, gets.
  destruct (stop_event st || stop_requested (clock st)).
  - exact Hready.
  - unfold bind at 1.
    destruct (guarded_callback_spec st) as (st' & Hcall & Hcalls). rewrite Hcall.
    pose proof (round_keeps_ready t0 "task_timer: Sleeping for %f seconds."
                  st st' Hready Hcall Hcalls) as Hnext.
    unfold bind. rewrite sleep_to_next_interval_spec in *. apply IH, Hnext.
Qed.

(** The loop only adds to the record of calls. *)
Lemma loop_extends_calls (fuel : nat) :
  forall st : state,
    exists more,
      calls (fst (loop callback stop_requested fuel interval st)) = calls st ++ more.
Proof.
  induction fuel as [|fuel IH]; intros st.
  - exists []. cbn. rewrite app_nil_r. reflexivity.
  - cbn [loop]. unfold bind at 1. unfold is_set, gets.
    destruct (stop_event st || stop_requested (clock st)).
    + exists []. cbn. rewrite app_nil_r. reflexivity.
    + unfold bind at 1.
      destruct (guarded_callback_spec st) as (st' & Hcall & Hcalls). rewrite Hcall.
      unfold bind. rewrite sleep_to_next_interval_spec.
      destruct (IH {| clock := clock st' + (I - remainder interval (clock st'));
                      stop_event := stop_event st'; calls := calls st';
                      logger := logger st' ++ [(INFO, Sleeping "task_timer: Sleeping for %f seconds." (I - remainder interval (clock st')))] |})
        as (more & Hmore).
      exists ((clock st, clock st') :: more).
      rewrite Hmore. cbn [calls]. rewrite Hcalls, <- app_assoc. reflexivity.
Qed.

(** With the stop event clear, the first test of the loop condition is
    followed by a call at the clock of that test. *)
Lemma loop_first_call (fuel : nat) (st : state) :
  stop_event st = false ->
  stop_requested (clock st) = false ->
  exists back more,
    calls (fst (loop callback stop_requested (S fuel) interval st))
    = calls st ++ (clock st, back) :: more.
Proof.
  intros Hflag Hreq. cbn [loop]. unfold bind at 1. unfold is_set, gets.
  rewrite Hflag, Hreq. cbn [orb]. unfold bind at 1.
  destruct (guarded_callback_spec st) as (st' & Hcall & Hcalls). rewrite Hcall.
  unfold bind. rewrite sleep_to_next_interval_spec.
  destruct (loop_extends_calls fuel
              {| clock := clock st' + (I - remainder interval (clock st'));
                 stop_event := stop_event st'; calls := calls st';
                 logger := logger st' ++ [(INFO, Sleeping "task_timer: Sleeping for %f seconds." (I - remainder interval (clock st')))] |})
    as (more & Hmore).
  exists (clock st'), more. rewrite Hmore. cbn [calls].
  rewrite Hcalls, <- app_assoc. reflexivity.
Qed.

(** The prologue of [task_timer] brings the timer to its first boundary. *)
Lemma task_timer_prologue (fuel : nat) (now : Q) :
  task_timer callback stop_requested fuel interval (start now)
  = loop callback stop_requested fuel interval
      {| clock := now + (I - remainder interval now); stop_event := false;
         calls := [];
         logger := [(INFO, Text "Starting the timer.");
                    (INFO, Sleeping "Sleeping for %f seconds." (I - remainder interval now))] |}.
Proof.
  unfold task_timer, bind. unfold log at 1, modify. cbn [start].
  rewrite sleep_to_next_interval_spec. reflexivity.
Qed.

End TimerFacts.

Section TimerEnvFacts.
Import TimerEnv.
Local Open Scope Q_scope.

Variable interval : Z.
Hypothesis interval_pos : (0 < interval)%Z.

Let J : Q := inject_Z interval.

Lemma fmod_bounds (x : Q) :
  (Qnum (fmod x interval) <? 0)%Z = true /\ - J < fmod x interval
  \/ (Qnum (fmod x interval) <? 0)%Z = false /\ 0 <= fmod x interval /\ fmod x interval < J.
Proof.
  destruct x as [n d]. unfold fmod, J, Qlt, Qle. cbn [Qnum Qden inject_Z Qopp].
  pose proof (Z.rem_bound_abs n (Zpos d * interval) ltac:(lia)) as Habs.
  destruct (Z.ltb_spec (Z.rem n (Z.pos d * interval)) 0) as [Hneg|Hnonneg].
  - left. split; [reflexivity|]. lia.
  - right. split; [reflexivity|]. split; lia.
Qed.

Variable fl : Q -> Q.
Hypothesis fl_range : forall q : Q, 0 <= q <= J -> 0 <= fl q <= J.

Lemma J_pos : 0 < J.
Proof.
  change (inject_Z 0 < inject_Z interval). rewrite <- Zlt_Qlt. exact interval_pos.
Qed.

(** The remainder lies between zero and the interval, both included: the
    sum that brings a negative [fmod] up may round to the interval. *)
Lemma float_mod_value_range (x : Q) :
  0 <= float_mod_value fl x interval <= J.
Proof.
  unfold float_mod_value. cbv zeta.
  destruct (Z.eqb_spec (Qnum (fmod x interval)) 0) as [_|Hnz].
  - split; [apply Qle_refl|apply Qlt_le_weak, J_pos].
  - assert ((interval <? 0)%Z = false) as -> by (apply Z.ltb_ge; lia).
    destruct (fmod_bounds x) as [[Hneg Hlo]|[Hneg [Hlo Hhi]]]; rewrite Hneg; cbn [xorb].
    + apply Z.ltb_lt in Hneg. apply fl_range. fold J.
      revert Hneg Hlo. generalize (fmod x interval). intros [r d].
      unfold J, Qlt, Qle. cbn. intros Hneg Hlo. split; nia.
    + split; [exact Hlo|apply Qlt_le_weak, Hhi].
Qed.

Variable timestamp : Q -> Q.

Lemma delay_range (t : Q) :
  0 <= delay_at timestamp fl interval t <= J.
Proof.
  unfold delay_at, float_sub. apply fl_range. fold J.
  destruct (float_mod_value_range (timestamp t)) as [Hlo Hhi]. split.
  - apply (Qplus_le_l _ _ (float_mod_value fl (timestamp t) interval)).
    ring_simplify. exact Hhi.
  - apply (Qplus_le_l _ _ (float_mod_value fl (timestamp t) interval - J)).
    ring_simplify. exact Hlo.
Qed.

Variable lag : Q -> Q -> Q.

Lemma sleep_to_next_interval_env (fmt : string) (st : state) :
  sleep_to_next_interval timestamp fl lag fmt interval st
  = ({| clock := wake timestamp fl lag interval (clock st);
        stop_event := stop_event st; calls := calls st;
        sleeps := sleeps st ++ [sleep_at timestamp fl interval (clock st)];
        logger := logger st
                  ++ [(INFO, TaskTimer.Sleeping fmt
                               (delay_at timestamp fl interval (clock st)))] |},
     Ok tt).
Proof.
  unfold sleep_to_next_interval, bind, gets, lift, float_mod.
  assert ((interval =? 0)%Z = false) as -> by (apply Z.eqb_neq; lia).
  unfold log, modify, sleep. cbn [clock stop_event calls sleeps logger].
  fold (delay_at timestamp fl interval (clock st)).
  assert (Qle_bool 0 (delay_at timestamp fl interval (clock st)) = true) as ->
    by (apply Qle_bool_iff, delay_range).
  reflexivity.
Qed.

Variable callback : Q -> Q * option Exn.
Variable stop_requested : Q -> bool.
Variable latency : Q -> Q.

(** One guarded call: it always comes back to the loop, the call is on
    record with the clock at which it was made, and the stop event is set
    exactly when the callback raised. *)
Lemma guarded_callback_env (st : state) :
  exists st',
    guarded_callback callback latency st = (st', Ok tt)
    /\ calls st' = calls st ++ [((clock st + latency (clock st))%Q, clock st')]
    /\ sleeps st' = sleeps st
    /\ stop_event st'
       = match snd (callback (clock st + latency (clock st))%Q) with
         | None => stop_event st
         | Some _ => true
         end.
Proof.
  unfold guarded_callback, bind, log, elapse, modify, run_callback, set_stop. cbn.
  destruct (callback (clock st + latency (clock st))) as [duration [e|]]; cbn;
    eexists; repeat split; reflexivity.
Qed.

(** One test of the loop condition: the loop is left, or a guarded call
    and a sleep are followed by the next test. *)
Lemma loop_step (fuel : nat) (st : state) :
  loop callback stop_requested timestamp fl lag latency (S fuel) interval st
  = if stop_event st || stop_requested (clock st) then
      (fst (log DEBUG (TaskTimer.Text "Leaving the task_timer method.") st),
       Ok TaskTimer.Returned)
    else
      loop callback stop_requested timestamp fl lag latency fuel interval
        (fst (sleep_to_next_interval timestamp fl lag
                "task_timer: Sleeping for %f seconds." interval
                (fst (guarded_callback callback latency st)))).
Proof.
  cbn [loop]. unfold bind at 1. unfold is_set, gets.
  destruct (stop_event st || stop_requested (clock st)); [reflexivity|].
  unfold bind at 1.
  destruct (guarded_callback_env st) as (st' & Hcall & _). rewrite Hcall.
  unfold bind. cbn [fst]. rewrite sleep_to_next_interval_env. reflexivity.
Qed.







(** The prologue of [task_timer] is the first sleep. *)
Lemma task_timer_prologue_env (fuel : nat) (now : Q) :
  task_timer callback stop_requested timestamp fl lag latency fuel interval (start now)
  = loop callback stop_requested timestamp fl lag latency fuel interval
      {| clock := wake timestamp fl lag interval now; stop_event := false;
         calls := []; sleeps := [sleep_at timestamp fl interval now];
         logger := [(INFO, TaskTimer.Text "Starting the timer.");
                    (INFO, TaskTimer.Sleeping "Sleeping for %f seconds."
                             (delay_at timestamp fl interval now))] |}.
Proof.
  unfold task_timer, bind. unfold log at 1, modify. cbn [start].
  rewrite sleep_to_next_interval_env. reflexivity.
Qed.

End TimerEnvFacts.

Section TimerExactFacts.
Import TimerEnv.
Local Open Scope Q_scope.

Variable interval : Z.
Hypothesis interval_pos : (0 < interval)%Z.


Variable fl : Q -> Q.
Hypothesis fl_exact : forall q : Q, fl q == q.


Variable timestamp : Q -> Q.
Hypothesis timestamp_exact : forall t : Q, timestamp t == t.
Variable lag : Q -> Q -> Q.
Hypothesis lag_none : forall t d : Q, lag t d == 0.
Variable latency : Q -> Q.
Hypothesis latency_none : forall t : Q, latency t == 0.




End TimerExactFacts.

Section FloatFacts.
Local Open Scope Q_scope.

Variable N : Z.
Hypothesis N_small : (N < 2 ^ 53)%Z.




End FloatFacts.




(** Interval 60, started at 12:00:23 (1667476823) on an exact clock: the
    first call is made at 12:01:00.  The callback then takes 90 seconds, to
    12:02:30, and the second call is made at 12:03:00, the first minute
    after the clock, not at 12:02:00, the minute after the first call. *)
Example task_timer_exact_clock_ticks :
  let st := fst (TimerEnv.task_timer (fun _ => (90 # 1, None)%Q) (fun _ => false)
                   TimerEnv.exact TimerEnv.exact TimerEnv.punctual TimerEnv.instant
                   3 60 (TimerEnv.start (inject_Z 1667476823))) in
  List.map (fun c => Qred (fst c)) (TimerEnv.calls st)
  = [inject_Z 1667476860; inject_Z 1667476980; inject_Z 1667477100]
  /\ List.map (fun s => Qred (snd s)) (TimerEnv.sleeps st)
     = [inject_Z 37; inject_Z 30; inject_Z 30; inject_Z 30].
Proof. vm_compute. split; reflexivity. Qed.


(** Interval 60, started at 12:00:23 (1667476823): the first call is made
    at 12:01:00.  The callback then runs for 90 seconds, to 12:02:30, and
    the second call is made at 12:03:00, the boundary after the clock, not
    at 12:02:00, the boundary after the first one. *)
Example task_timer_first_tick_and_overrun :
  let st := fst (TaskTimer.task_timer (fun _ => (90 # 1, None)%Q) (fun _ => false)
                   3 60 (TaskTimer.start (inject_Z 1667476823))) in
  List.map (fun c => Qred (fst c)) (TaskTimer.calls st)
  = [inject_Z 1667476860; inject_Z 1667476980; inject_Z 1667477100].
Proof. vm_compute. reflexivity. Qed.

(* ===================================================================== *)
(** * Further properties: Version                                         *)
(* ===================================================================== *)

Section VersionMoreFacts.
Import Version VersionStr.

Lemma is_digit_value (c : ascii) :
  is_digit c = true -> 0 <= Z.of_nat (nat_of_ascii c) - 48 <= 9.
Proof.
  unfold is_digit. intros H. apply andb_true_iff in H as [H1 H2].
  apply Nat.leb_le in H1, H2. lia.
Qed.

Lemma int_acc_nonneg (s : string) :
  forall acc : Z, all_chars is_digit s = true -> 0 <= acc -> 0 <= int_acc acc s.
Proof.
  induction s as [|c s IH]; intros acc Hd Hacc; cbn [int_acc all_chars] in *.
  - exact Hacc.
  - apply andb_true_iff in Hd as [Hc Hs]. apply IH; [exact Hs|].
    pose proof (is_digit_value c Hc). lia.
Qed.

Lemma isdigit_all (s : string) : isdigit s = true -> all_chars is_digit s = true.
Proof. destruct s; [discriminate|]. intros H. exact H. Qed.

Lemma component_nonneg (x : string) : 0 <= component x.
Proof.
  unfold component. destruct (isdigit x) eqn:Hx.
  - apply int_acc_nonneg; [apply isdigit_all, Hx|lia].
  - destruct (List.filter isdigit (split_on is_letter x)) as [|t0 tmp] eqn:Hf; [lia|].
    assert (Hin : In t0 (List.filter isdigit (split_on is_letter x)))
      by (rewrite Hf; left; reflexivity).
    apply filter_In in Hin as [_ Ht0].
    apply int_acc_nonneg; [apply isdigit_all, Ht0|lia].
Qed.

Lemma split_on_nonempty (p : ascii -> bool) (s : string) : split_on p s <> [].
Proof.
  destruct s as [|c s]; cbn [split_on]; [discriminate|].
  destruct (p c); [discriminate|]. destruct (split_on p s); discriminate.
Qed.

Lemma string_to_tuple_nonempty (vs : string) : string_to_tuple vs <> [].
Proof.
  unfold string_to_tuple. intros H. apply map_eq_nil in H.
  exact (split_on_nonempty _ _ H).
Qed.

Lemma string_to_tuple_nonneg (vs : string) :
  Forall (fun n => 0 <= n) (string_to_tuple vs).
Proof.
  unfold string_to_tuple. apply Forall_forall. intros n Hn.
  apply list_elem_of_In, in_map_iff in Hn as (x & <- & _). apply component_nonneg.
Qed.

End VersionMoreFacts.

(** X1.  Whenever [string_to_tuple] returns, it returns one integer per
    dot-separated piece of the string, at least one, and none of them
    negative; the tuple is the one the total conversion gives.  It raises
    only where [int] refuses the digits of a piece, and then ValueError. *)
Theorem string_to_tuple_returns_shape (vs : string) :
  (forall l : list Z,
      VersionChecked.string_to_tuple vs = Ok l ->
      l = Version.string_to_tuple vs
      /\ l <> []
      /\ length l = length (str_split "." vs)
      /\ Forall (fun n => 0 <= n) l)
  /\ (forall e : Exn,
         VersionChecked.string_to_tuple vs = Raise e -> exists text, e = ValueError text).
Proof.
  split.
  - intros l Hl. apply components_checked in Hl. fold (Version.string_to_tuple vs) in Hl.
    subst l. split; [reflexivity|].
    split; [apply string_to_tuple_nonempty|].
    split; [apply string_to_tuple_length|apply string_to_tuple_nonneg].
  - intros e. apply components_raises.
Qed.

Lemma string_to_tuple_returns_shape_witness :
  [1; 12; 0] = Version.string_to_tuple "1.12rc3.x"
  /\ [1; 12; 0] <> []
  /\ length [1; 12; 0] = length (str_split "." "1.12rc3.x")
  /\ Forall (fun n => 0 <= n) [1; 12; 0].
Proof.
  exact (proj1 (string_to_tuple_returns_shape "1.12rc3.x") [1; 12; 0] eq_refl).
Defined.

(** The superscript two is a digit for [isdigit] and none for [int]. *)
Example string_to_tuple_superscript :
  VersionChecked.string_to_tuple ("1." ++ String (ascii_of_nat 178) "")
  = Raise (ValueError "invalid literal for int() with base 10")
  /\ VersionChecked.string_to_tuple "1.12rc3.x" = Ok [1; 12; 0].
Proof. split; reflexivity. Qed.

Section VersionStrFacts.
Import Version VersionStr.

Lemma digit_char_spec (d : Z) :
  0 <= d <= 9 ->
  is_digit (digit_char d) = true
  /\ Z.of_nat (nat_of_ascii (digit_char d)) - 48 = d.
Proof.
  intros Hd.
  assert (Hcases : d = 0 \/ d = 1 \/ d = 2 \/ d = 3 \/ d = 4 \/ d = 5 \/ d = 6
                   \/ d = 7 \/ d = 8 \/ d = 9) by lia.
  repeat (destruct Hcases as [->|Hcases]; [split; reflexivity|]).
  subst d. split; reflexivity.
Qed.

(** What is read before a string counts ten times per character of it. *)
Lemma int_acc_shift (s : string) :
  forall acc : Z,
    int_acc acc s = acc * 10 ^ Z.of_nat (String.length s) + int_acc 0 s.
Proof.
  induction s as [|c s IH]; intros acc; cbn [int_acc String.length].
  - cbn. lia.
  - rewrite (IH (10 * acc + _)), (IH (10 * 0 + _)).
    rewrite Nat2Z.inj_succ, Z.pow_succ_r by lia. ring.
Qed.

Lemma digits_spec (fuel : nat) :
  forall (n : Z) (acc : string),
    0 <= n < 2 ^ Z.of_nat fuel ->
    all_chars is_digit acc = true ->
    all_chars is_digit (digits fuel n acc) = true
    /\ int_acc 0 (digits fuel n acc)
       = n * 10 ^ Z.of_nat (String.length acc) + int_acc 0 acc
    /\ (acc <> "" -> digits fuel n acc <> "").
Proof.
  induction fuel as [|fuel IH]; intros n acc Hn Hacc.
  - cbn in Hn. assert (n = 0) as -> by lia. cbn [digits]. repeat split; auto.
  - cbn [digits].
    pose proof (Z.mod_pos_bound n 10 ltac:(lia)) as Hmod.
    pose proof (Z.div_mod n 10 ltac:(lia)) as Hdm.
    destruct (digit_char_spec (n mod 10) ltac:(lia)) as [Hdig Hval].
    assert (Hacc' : all_chars is_digit (String (digit_char (n mod 10)) acc) = true).
    { cbn [all_chars]. rewrite Hdig, Hacc. reflexivity. }
    destruct (n / 10 =? 0) eqn:Hq.
    + apply Z.eqb_eq in Hq. repeat split.
      * exact Hacc'.
      * cbn [int_acc]. rewrite int_acc_shift, Hval. f_equal. f_equal. lia.
      * discriminate.
    + apply Z.eqb_neq in Hq.
      rewrite Nat2Z.inj_succ, Z.pow_succ_r in Hn by lia.
      destruct (IH (n / 10) (String (digit_char (n mod 10)) acc)) as (H1 & H2 & H3).
      * split; [apply Z.div_pos; lia|].
        apply Z.div_lt_upper_bound; lia.
      * exact Hacc'.
      * repeat split.
        -- exact H1.
        -- rewrite H2. cbn [int_acc String.length].
           rewrite (int_acc_shift acc), Hval, Nat2Z.inj_succ, Z.pow_succ_r by lia.
           set (P := 10 ^ Z.of_nat (String.length acc)).
           rewrite Hdm at 3. ring.
        -- intros _. apply H3. discriminate.
Qed.

(** [str] of a non-negative int is a string of digits that [int] reads
    back. *)
Lemma str_int_spec (n : Z) :
  0 <= n -> isdigit (str_int n) = true /\ py_int (str_int n) = n.
Proof.
  intros Hn. unfold str_int.
  assert ((n <? 0) = false) as -> by (apply Z.ltb_ge; lia).
  assert (Hbound : 0 <= n < 2 ^ Z.of_nat (S (Z.to_nat (Z.log2 n)))).
  { rewrite Nat2Z.inj_succ, Z2Nat.id by apply Z.log2_nonneg.
    destruct (Z.eq_dec n 0) as [->|Hnz]; [cbn; lia|].
    pose proof (Z.log2_spec n ltac:(lia)). lia. }
  destruct (digits_spec _ n "" Hbound eq_refl) as (Hall & Hint & _).
  split.
  - unfold isdigit. cbn [digits] in *.
    destruct (n / 10 =? 0); [exact Hall|].
    destruct (digits _ _ _) eqn:Hd; [|exact Hall].
    exfalso. revert Hd.
    assert (Hb' : 0 <= n / 10 < 2 ^ Z.of_nat (Z.to_nat (Z.log2 n))).
    { split; [apply Z.div_pos; lia|].
      rewrite Nat2Z.inj_succ, Z.pow_succ_r in Hbound by lia.
      apply Z.div_lt_upper_bound; lia. }
    apply (digits_spec _ _ _ Hb'); [|discriminate].
    cbn [all_chars]. rewrite andb_true_r.
    apply digit_char_spec. pose proof (Z.mod_pos_bound n 10 ltac:(lia)). lia.
  - unfold py_int. rewrite Hint. cbn. lia.
Qed.

Lemma component_str_int (n : Z) : 0 <= n -> component (str_int n) = n.
Proof.
  intros Hn. destruct (str_int_spec n Hn) as [Hd Hi].
  unfold component. rewrite Hd. exact Hi.
Qed.

(** Splitting at a character: a string without it is one piece, and the
    pieces of two strings put together around it are the pieces of both. *)
Lemma split_on_none (p : ascii -> bool) (s : string) :
  all_chars (fun c => negb (p c)) s = true -> split_on p s = [s].
Proof.
  induction s as [|c s IH]; cbn [all_chars split_on]; [reflexivity|].
  intros H. apply andb_true_iff in H as [Hc Hs]. apply negb_true_iff in Hc.
  rewrite Hc, (IH Hs). reflexivity.
Qed.

Lemma split_on_app (p : ascii -> bool) (sep : ascii) (x y : string) :
  p sep = true ->
  split_on p (x ++ String sep y)%string = split_on p x ++ split_on p y.
Proof.
  intros Hsep. induction x as [|c x IH]; simpl.
  - rewrite Hsep. reflexivity.
  - rewrite IH. destruct (p c); [reflexivity|].
    pose proof (split_on_nonempty p x) as Hne.
    destruct (split_on p x); [contradiction|]. reflexivity.
Qed.

Lemma split_join (sep : ascii) (parts : list string) :
  parts <> [] ->
  Forall (fun s => all_chars (fun c => negb (Ascii.eqb sep c)) s = true) parts ->
  str_split sep (str_join (String sep "") parts) = parts.
Proof.
  unfold str_split. induction parts as [|a parts IH]; intros Hne Hall; [contradiction|].
  apply Forall_cons in Hall as [Ha Hall].
  destruct parts as [|b parts].
  - cbn [str_join]. apply split_on_none, Ha.
  - change (str_join (String sep "") (a :: b :: parts))
      with (a ++ String sep (str_join (String sep "") (b :: parts)))%string.
    rewrite (split_on_app _ sep) by apply Ascii.eqb_refl.
    rewrite (split_on_none _ _ Ha), IH; [reflexivity|discriminate|exact Hall].
Qed.

Lemma digits_have_no_dot (s : string) :
  all_chars is_digit s = true ->
  all_chars (fun c => negb (Ascii.eqb "." c)) s = true.
Proof.
  induction s as [|c s IH]; cbn [all_chars]; [reflexivity|].
  intros H. apply andb_true_iff in H as [Hc Hs]. rewrite (IH Hs), andb_true_r.
  apply negb_true_iff, Ascii.eqb_neq. intros <-. discriminate Hc.
Qed.

(** Printing a non-empty tuple of non-negative integers and parsing the
    result gives the tuple back. *)
Lemma string_to_tuple_str (l : list Z) :
  l <> [] -> Forall (fun n => 0 <= n) l ->
  string_to_tuple (__str__ {| version := l |}) = l.
Proof.
  intros Hne Hpos. unfold string_to_tuple, __str__. cbn [version].
  rewrite split_join.
  - rewrite List.map_map. rewrite <- (List.map_id l) at 2.
    apply map_ext_in. intros n Hn. apply component_str_int.
    rewrite Forall_forall in Hpos. apply Hpos, list_elem_of_In, Hn.
  - intros H. apply map_eq_nil in H. contradiction.
  - apply Forall_forall. intros s Hs.
    apply list_elem_of_In, in_map_iff in Hs as (n & <- & Hn).
    apply digits_have_no_dot, isdigit_all, str_int_spec.
    rewrite Forall_forall in Hpos. apply Hpos, list_elem_of_In, Hn.
Qed.

End VersionStrFacts.

(** X2.  Printing a version and reading the text back gives the same
    version: [Version(str(v))] has the tuple of [v], for every [v] made
    from a string. *)
Theorem version_str_round_trip (vs : string) :
  Version.init (VersionStr.__str__ (Version.init vs)) = Version.init vs.
Proof.
  unfold Version.init at 1 3. f_equal.
  apply string_to_tuple_str;
    [apply string_to_tuple_nonempty|apply string_to_tuple_nonneg].
Qed.

Example version_str_example :
  VersionStr.__str__ (Version.init "1.12rc3.x") = "1.12.0".
Proof. reflexivity. Qed.

Section VersionOrderFacts.
Import Version.

Lemma index_drop_nil (c : list Z) (k : nat) :
  drop k c = [] -> index c k = Raise IndexError.
Proof.
  intros Hd. unfold index.
  assert (Hl : c !! k = None).
  { rewrite <- (Nat.add_0_r k), <- lookup_drop, Hd. reflexivity. }
  rewrite Hl. reflexivity.
Qed.

(** [eq_loop] against what is left of [c]: True when [rest] runs out
    first, IndexError when [c] does, False at the first difference. *)
Lemma eq_loop_prefix (rest : list Z) :
  forall (k : nat) (c c' : list Z),
    drop k c = c' ->
    (eq_loop k rest c = Ok true <-> rest `prefix_of` c')
    /\ (eq_loop k rest c = Raise IndexError
        <-> c' `prefix_of` rest /\ (length c' < length rest)%nat)
    /\ (forall e, eq_loop k rest c = Raise e -> e = IndexError).
Proof.
  induction rest as [|x rest IH]; intros k c c' Hd; cbn [eq_loop].
  - split; [|split].
    + split; [intros _; apply prefix_nil|reflexivity].
    + split; [discriminate|]. cbn [length]. lia.
    + discriminate.
  - destruct c' as [|y c'].
    + rewrite (index_drop_nil _ _ Hd). cbn [rbind]. split; [|split].
      * split; [discriminate|]. intros H. apply prefix_nil_inv in H. discriminate.
      * split; [|reflexivity]. intros _. split; [apply prefix_nil|cbn; lia].
      * congruence.
    + destruct (index_drop _ _ _ _ Hd) as [Hi Hd']. rewrite Hi. cbn [rbind].
      destruct (IH (S k) c c' Hd') as (IHt & IHe & IHr).
      destruct (Z.eqb_spec x y) as [->|Hne]; cbn [negb].
      * split; [|split].
        -- rewrite IHt. split; [apply prefix_cons|apply prefix_cons_inv_2].
        -- rewrite IHe. cbn [length]. split.
           ++ intros [Hp Hl]. split; [apply prefix_cons, Hp|lia].
           ++ intros [Hp Hl]. split; [exact (prefix_cons_inv_2 _ _ _ _ Hp)|lia].
        -- exact IHr.
      * split; [|split].
        -- split; [discriminate|]. intros Hp. apply prefix_cons_inv_1 in Hp. congruence.
        -- split; [discriminate|]. intros [Hp _]. apply prefix_cons_inv_1 in Hp.
           congruence.
        -- discriminate.
Qed.

Lemma lex_compare_antisym (a : list Z) :
  forall b, lex_compare b a = CompOpp (lex_compare a b).
Proof.
  induction a as [|x a IH]; intros [|y b]; cbn [lex_compare]; try reflexivity.
  rewrite (Z.compare_antisym x y). destruct (x ?= y); cbn [CompOpp]; auto.
Qed.

Lemma lex_compare_eq (a : list Z) :
  forall b, lex_compare a b = Eq <-> a = b.
Proof.
  induction a as [|x a IH]; intros [|y b]; cbn [lex_compare];
    try (split; [discriminate|discriminate]); try tauto.
  destruct (Z.compare_spec x y) as [->|Hlt|Hgt].
  - rewrite IH. split; congruence.
  - split; [discriminate|]. intros [= -> _]. lia.
  - split; [discriminate|]. intros [= -> _]. lia.
Qed.

End VersionOrderFacts.

(** X3.  [__eq__] looks only at as many components as [self] has: it
    returns True exactly when the tuple of [self] is a prefix of the tuple
    of [c], raises exactly when the tuple of [c] is a proper prefix of the
    tuple of [self], and then raises IndexError. *)
Theorem version_eq_compares_prefix (self c : Version.t) :
  (Version.eq self c = Ok true
   <-> Version.version self `prefix_of` Version.version c)
  /\ (Version.eq self c = Raise IndexError
      <-> Version.version c `prefix_of` Version.version self
          /\ (length (Version.version c) < length (Version.version self))%nat)
  /\ (forall e, Version.eq self c = Raise e -> e = IndexError).
Proof.
  exact (eq_loop_prefix (Version.version self) 0 (Version.version c)
           (Version.version c) (drop_0 _)).
Qed.

(** X4.  On two version strings with the same number of components the
    operators return, never raise, and order the versions strictly and
    totally: exactly one of [==], [<], [>] holds, [!=] is the negation of
    [==], [a < b] is [b > a], and [==] holds exactly for equal tuples. *)
Theorem version_same_length_total_order (vs1 vs2 : string) :
  length (str_split "." vs1) = length (str_split "." vs2) ->
  let a := Version.init vs1 in
  let b := Version.init vs2 in
  exists e l g : bool,
    Version.eq a b = Ok e /\ Version.lt a b = Ok l /\ Version.gt a b = Ok g
    /\ Version.ne a b = Ok (negb e)
    /\ Version.eq b a = Ok e /\ Version.gt b a = Ok l /\ Version.lt b a = Ok g
    /\ (e = true <-> Version.string_to_tuple vs1 = Version.string_to_tuple vs2)
    /\ ((e, l, g) = (true, false, false) \/ (e, l, g) = (false, true, false)
        \/ (e, l, g) = (false, false, true)).
Proof.
  intros Hlen a b.
  set (x := Version.string_to_tuple vs1). set (y := Version.string_to_tuple vs2).
  assert (Hl : length x = length y).
  { subst x y. rewrite !string_to_tuple_length. exact Hlen. }
  destruct (loops_lex x 0 y y (drop_0 y) Hl) as (He & Hg & Hlt).
  destruct (loops_lex y 0 x x (drop_0 x) (eq_sym Hl)) as (He' & Hg' & Hlt').
  exists (Version.lex_eq x y), (Version.lex_lt x y), (Version.lex_gt x y).
  unfold Version.ne, Version.eq, Version.gt, Version.lt. subst a b.
  cbn [Version.init Version.version]. fold x y.
  rewrite He, Hg, Hlt, He', Hg', Hlt'. cbn [rbind].
  unfold Version.lex_eq, Version.lex_gt, Version.lex_lt.
  rewrite (lex_compare_antisym x y).
  pose proof (lex_compare_eq x y) as Heq.
  destruct (Version.lex_compare x y); cbn [CompOpp];
    repeat (split; [reflexivity|]); (split; [|auto]).
  - split; [intros _; apply Heq; reflexivity|reflexivity].
  - split; [discriminate|]. intros H. apply Heq in H. discriminate.
  - split; [discriminate|]. intros H. apply Heq in H. discriminate.
Qed.

Lemma version_same_length_total_order_witness :
  exists e l g : bool,
    Version.eq (Version.init "0.9.1") (Version.init "0.10.0") = Ok e
    /\ Version.lt (Version.init "0.9.1") (Version.init "0.10.0") = Ok l
    /\ Version.gt (Version.init "0.9.1") (Version.init "0.10.0") = Ok g.
Proof.
  destruct (version_same_length_total_order "0.9.1" "0.10.0" eq_refl)
    as (e & l & g & He & Hl & Hg & _).
  exists e, l, g. repeat split; assumption.
Defined.

(* ===================================================================== *)
(** * Further properties: AttribDict                                      *)
(* ===================================================================== *)

(** X5.  Setting an attribute and deleting it again undoes the setting:
    the deletion succeeds and leaves the mapping without the name, which is
    the mapping as it was when the name was no key before; setting a name
    twice keeps only the second value. *)
Theorem attribdict_set_then_delete
        {V : Type} (d : gmap string V) (name : string) (v v' : V) :
  AttribDict.delattr (AttribDict.setattr d name v) name = Ok (delete name d)
  /\ (AttribDict.contains d name = false ->
      AttribDict.delattr (AttribDict.setattr d name v) name = Ok d)
  /\ AttribDict.setattr (AttribDict.setattr d name v) name v'
     = AttribDict.setattr d name v'.
Proof.
  unfold AttribDict.delattr, AttribDict.__delattr__, AttribDict.setattr,
    AttribDict.__setattr__.
  rewrite contains_insert, delete_insert_eq. split; [reflexivity|]. split.
  - intros Hc. apply contains_false in Hc. rewrite delete_id by exact Hc. reflexivity.
  - apply insert_insert_eq.
Qed.

(** X6.  Setting or deleting one attribute leaves every other name as it
    was, for attribute access and for item access; after a deletion the
    name is no key, and deleting it a second time raises AttributeError. *)
Theorem attribdict_other_names_untouched
        {V : Type} (d : gmap string V) (name other : string) (v : V) :
  name <> other ->
  (AttribDict.getattr (AttribDict.setattr d name v) other = AttribDict.getattr d other
   /\ AttribDict.getitem (AttribDict.setattr d name v) other = AttribDict.getitem d other)
  /\ forall d' : gmap string V,
      AttribDict.delattr d name = Ok d' ->
      AttribDict.getattr d' other = AttribDict.getattr d other
      /\ AttribDict.getitem d' other = AttribDict.getitem d other
      /\ AttribDict.contains d' name = false
      /\ AttribDict.delattr d' name
         = Raise (AttributeError ("No such attribute: " ++ name)%string).
Proof.
  intros Hne. split.
  - unfold AttribDict.getattr, AttribDict.__getattr__, AttribDict.getitem,
      AttribDict.contains, AttribDict.setattr, AttribDict.__setattr__.
    rewrite lookup_insert_ne by exact Hne. split; reflexivity.
  - intros d' Hdel. unfold AttribDict.delattr, AttribDict.__delattr__ in Hdel.
    destruct (AttribDict.contains d name); [|discriminate Hdel].
    injection Hdel as <-.
    unfold AttribDict.getattr, AttribDict.__getattr__, AttribDict.getitem,
      AttribDict.contains, AttribDict.delattr, AttribDict.__delattr__.
    rewrite lookup_delete_ne by exact Hne. rewrite lookup_delete_eq.
    repeat split. unfold AttribDict.contains. rewrite lookup_delete_eq. reflexivity.
Qed.

Lemma attribdict_other_names_untouched_witness :
  AttribDict.getattr (AttribDict.setattr ({[ "port" := 18000 ]} : gmap string Z) "host" 7)
    "port"
  = AttribDict.getattr ({[ "port" := 18000 ]} : gmap string Z) "port".
Proof.
  refine (proj1 (proj1 (attribdict_other_names_untouched
                          ({[ "port" := 18000 ]} : gmap string Z) "host" "port" 7 _))).
  discriminate.
Defined.

(* ===================================================================== *)
(** * Further properties: task_timer                                      *)
(* ===================================================================== *)

Section TimerMoreFacts.
Import TaskTimer.
Local Open Scope Q_scope.

Variable callback : Q -> Q * option Exn.
Variable stop_requested : Q -> bool.

(** Sleeping, whether it returns or raises, leaves the record of calls and
    the stop flag alone. *)
Lemma sleep_to_next_interval_keeps (fmt : string) (interval : Z) (st : state) :
  calls (fst (sleep_to_next_interval fmt interval st)) = calls st
  /\ stop_event (fst (sleep_to_next_interval fmt interval st)) = stop_event st.
Proof.
  unfold sleep_to_next_interval, bind, gets, lift, log, modify, sleep, raise.
  destruct (float_mod (clock st) interval) as [r|e]; cbn; [|split; reflexivity].
  destruct (Qle_bool 0 (inject_Z interval - r)); split; reflexivity.
Qed.

(** One guarded call in full: the call is on record, and the stop flag is
    set exactly when the callback raised. *)
Lemma guarded_callback_full (st : state) :
  exists st',
    guarded_callback callback st = (st', Ok tt)
    /\ calls st' = calls st ++ [(clock st, clock st + fst (callback (clock st)))]
    /\ clock st' = clock st + fst (callback (clock st))
    /\ stop_event st'
       = stop_event st || match snd (callback (clock st)) with
                          | Some _ => true
                          | None => false
                          end.
Proof.
  unfold guarded_callback, bind, log, modify, run_callback, set_stop. cbn.
  destruct (callback (clock st)) as [duration [e|]]; cbn; eexists;
    repeat split; cbn; rewrite ?orb_true_r, ?orb_false_r; reflexivity.
Qed.

(** One round of the loop on a timer that is not stopped. *)
Lemma loop_round (fuel : nat) (interval : Z) (st : state) :
  stop_event st || stop_requested (clock st) = false ->
  exists st',
    guarded_callback callback st = (st', Ok tt)
    /\ loop callback stop_requested (S fuel) interval st
       = match sleep_to_next_interval "task_timer: Sleeping for %f seconds."
                 interval st' with
         | (st'', Ok _) => loop callback stop_requested fuel interval st''
         | (st'', Raise e) => (st'', Raise e)
         end.
Proof.
  intros Hrun. destruct (guarded_callback_full st) as (st' & Hcall & _).
  exists st'. split; [exact Hcall|].
  cbn [loop]. unfold bind at 1. unfold is_set, gets. rewrite Hrun.
  unfold bind at 1. rewrite Hcall. unfold bind.
  destruct (sleep_to_next_interval _ interval st') as [st'' [[]|e]]; reflexivity.
Qed.

Lemma loop_stopped (fuel : nat) (interval : Z) (st : state) :
  stop_event st || stop_requested (clock st) = true ->
  loop callback stop_requested (S fuel) interval st
  = ({| clock := clock st; stop_event := stop_event st; calls := calls st;
        logger := logger st ++ [(DEBUG, Text "Leaving the task_timer method.")] |},
     Ok Returned).
Proof.
  intros Hstop. cbn [loop]. unfold bind at 1. unfold is_set, gets. rewrite Hstop.
  reflexivity.
Qed.

(** A property of single calls that holds for every call the loop can
    make holds for all calls on record. *)
Lemma loop_calls_forall (P : Q * Q -> Prop) (interval : Z) :
  (forall t : Q, stop_requested t = false -> P (t, t + fst (callback t))) ->
  forall (fuel : nat) (st : state),
    Forall P (calls st) ->
    Forall P (calls (fst (loop callback stop_requested fuel interval st))).
Proof.
  intros Hstep. induction fuel as [|fuel IH]; intros st Hst; [exact Hst|].
  destruct (stop_event st || stop_requested (clock st)) eqn:Hrun.
  - rewrite loop_stopped by exact Hrun. exact Hst.
  - destruct (loop_round fuel interval st Hrun) as (st' & Hcall & ->).
    destruct (guarded_callback_full st) as (st1 & Hcall1 & Hcalls & _).
    rewrite Hcall in Hcall1. injection Hcall1 as <-.
    pose proof (sleep_to_next_interval_keeps
                  "task_timer: Sleeping for %f seconds." interval st') as [Hk _].
    apply orb_false_iff in Hrun as [_ Hreq].
    assert (Hst' : Forall P (calls st')).
    { rewrite Hcalls. apply Forall_app. split; [exact Hst|].
      apply Forall_cons. split; [apply Hstep, Hreq|apply Forall_nil_2]. }
    destruct (sleep_to_next_interval _ interval st') as [st'' [[]|e]];
      cbn [fst] in *.
    + apply IH. rewrite Hk. exact Hst'.
    + rewrite Hk. exact Hst'.
Qed.

(** Once the stop flag is set the loop makes no call; and a call whose
    callback raised is the last one the loop makes. *)
Lemma loop_raise_is_last (interval : Z) (fuel : nat) :
  forall st : state,
    exists more,
      calls (fst (loop callback stop_requested fuel interval st)) = calls st ++ more
      /\ (stop_event st = true -> more = [])
      /\ forall (i : nat) (called back : Q),
          more !! i = Some (called, back) ->
          snd (callback called) <> None -> S i = length more.
Proof.
  induction fuel as [|fuel IH]; intros st.
  - exists []. cbn. rewrite app_nil_r. repeat split; auto. intros i c b H. discriminate.
  - destruct (stop_event st || stop_requested (clock st)) eqn:Hrun.
    + rewrite loop_stopped by exact Hrun. exists []. cbn. rewrite app_nil_r.
      repeat split; auto. intros i c b H. discriminate.
    + destruct (loop_round fuel interval st Hrun) as (st' & Hcall & ->).
      destruct (guarded_callback_full st) as (st1 & Hcall1 & Hcalls & _ & Hflag).
      rewrite Hcall in Hcall1. injection Hcall1 as <-.
      pose proof (sleep_to_next_interval_keeps
                    "task_timer: Sleeping for %f seconds." interval st') as [Hk Hs].
      apply orb_false_iff in Hrun as [Hflag0 _]. rewrite Hflag0 in Hflag.
      cbn [orb] in Hflag.
      destruct (sleep_to_next_interval _ interval st') as [st'' [[]|e]];
        cbn [fst] in *.
      * destruct (IH st'') as (more & Hmore & Hnone & Hlast).
        exists ((clock st, clock st + fst (callback (clock st))) :: more).
        rewrite Hmore, Hk, Hcalls, <- app_assoc. split; [reflexivity|].
        split; [intros Habs; congruence|].
        intros [|i] c b Hi Hraise; cbn in Hi.
        -- injection Hi as <- <-. rewrite Hnone; [reflexivity|].
           rewrite Hs, Hflag. destruct (snd (callback (clock st))); congruence.
        -- cbn [length]. f_equal. exact (Hlast i c b Hi Hraise).
      * exists [(clock st, clock st + fst (callback (clock st)))].
        rewrite Hk, Hcalls. split; [reflexivity|].
        split; [intros Habs; congruence|].
        intros [|i] c b Hi _; [reflexivity|discriminate Hi].
Qed.

End TimerMoreFacts.

Section TimerRunFacts.
Import TaskTimer.
Local Open Scope Q_scope.

Variable callback : Q -> Q * option Exn.
Variable stop_requested : Q -> bool.

(** [task_timer] is its prologue followed by the loop. *)
Lemma task_timer_unfold (fuel : nat) (interval : Z) (now : Q) :
  task_timer callback stop_requested fuel interval (start now)
  = match sleep_to_next_interval "Sleeping for %f seconds." interval
            {| clock := now; stop_event := false; calls := [];
               logger := [(INFO, Text "Starting the timer.")] |} with
    | (st, Ok _) => loop callback stop_requested fuel interval st
    | (st, Raise e) => (st, Raise e)
    end.
Proof.
  unfold task_timer, bind. unfold log at 1, modify. cbn [start app].
  destruct (sleep_to_next_interval _ interval _) as [st [[]|e]]; reflexivity.
Qed.


End TimerRunFacts.



Example task_timer_negative_interval :
  snd (TaskTimer.task_timer (fun _ => (0, None)%Q) (fun _ => false) 5 (-60)
         (TaskTimer.start (inject_Z 1667476823)))
  = Raise (ValueError "sleep length must be non-negative").
Proof. reflexivity. Qed.

(** X8.  A timer started exactly on a boundary does not tick at once: it
    sleeps a whole interval, and its first call is made one interval after
    the start. *)
Theorem task_timer_started_on_boundary_waits
        (callback : Q -> Q * option Exn) (stop_requested : Q -> bool)
        (interval k : Z) (fuel : nat) :
  (0 < interval)%Z ->
  (forall t : Q, (t == inject_Z (interval * (k + 1)))%Q -> stop_requested t = false) ->
  let now := inject_Z (interval * k) in
  let st := fst (TaskTimer.task_timer callback stop_requested (S fuel) interval
                   (TaskTimer.start now)) in
  exists called back more,
    TaskTimer.calls st = (called, back) :: more
    /\ (called == now + inject_Z interval)%Q.
Proof.
  intros Hpos Hclear now st. subst st.
  rewrite (task_timer_prologue interval Hpos).
  set (st1 := {| TaskTimer.clock := _ |}).
  assert (Hclock : (TaskTimer.clock st1 == now + inject_Z interval)%Q).
  { cbn [st1 TaskTimer.clock]. unfold TaskTimer.remainder, now.
    assert (Hq : (inject_Z (interval * k) / inject_Z interval == inject_Z k)%Q).
    { rewrite inject_Z_mult. field. intros H.
      assert (Hp : (0 < inject_Z interval)%Q)
        by (change (inject_Z 0 < inject_Z interval)%Q; rewrite <- Zlt_Qlt; exact Hpos).
      rewrite H in Hp. discriminate Hp. }
    rewrite (Qfloor_comp _ _ Hq), Qfloor_Z, inject_Z_mult. ring. }
  destruct (loop_first_call interval Hpos callback stop_requested fuel st1)
    as (back & more & Hcalls).
  - reflexivity.
  - apply Hclear. rewrite Hclock. unfold now.
    rewrite !inject_Z_mult, inject_Z_plus. ring.
  - exists (TaskTimer.clock st1), back, more. split; [exact Hcalls|exact Hclock].
Qed.

Lemma task_timer_started_on_boundary_waits_witness :
  let st := fst (TaskTimer.task_timer (fun _ => (1 # 2, None)%Q) (fun _ => false)
                   2 60 (TaskTimer.start (inject_Z (60 * 27791280)))) in
  exists called back more,
    TaskTimer.calls st = (called, back) :: more
    /\ (called == inject_Z (60 * 27791280) + inject_Z 60)%Q.
Proof.
  exact (task_timer_started_on_boundary_waits
           (fun _ => (1 # 2, None)%Q) (fun _ => false) 60 27791280 1
           eq_refl (fun _ _ => eq_refl)).
Defined.

(** X9.  A call whose callback raised is the last call the timer makes,
    for every interval and every number of rounds; and when the callback
    raises at its first call, the timer logs the exception, sets the stop
    event and returns after that one call. *)
Theorem task_timer_stops_after_raising_callback
        (callback : Q -> Q * option Exn) (stop_requested : Q -> bool)
        (interval : Z) (now : Q) (fuel : nat) :
  let st := fst (TaskTimer.task_timer callback stop_requested fuel interval
                   (TaskTimer.start now)) in
  (forall (i : nat) (called back : Q),
      TaskTimer.calls st !! i = Some (called, back) ->
      snd (callback called) <> None ->
      S i = length (TaskTimer.calls st))
  /\ ((0 < interval)%Z ->
      (forall t, stop_requested t = false) ->
      (forall t, snd (callback t) <> None) ->
      (2 <= fuel)%nat ->
      snd (TaskTimer.task_timer callback stop_requested fuel interval
             (TaskTimer.start now)) = Ok TaskTimer.Returned
      /\ length (TaskTimer.calls st) = 1%nat
      /\ TaskTimer.stop_event st = true).
Proof.
  intros st. subst st. split.
  - rewrite task_timer_unfold.
    pose proof (sleep_to_next_interval_keeps "Sleeping for %f seconds." interval
                  {| TaskTimer.clock := now; TaskTimer.stop_event := false;
                     TaskTimer.calls := [];
                     TaskTimer.logger := [(INFO, TaskTimer.Text "Starting the timer.")] |})
      as [Hk _].
    destruct (TaskTimer.sleep_to_next_interval _ interval _) as [st1 [[]|e]];
      cbn [fst TaskTimer.calls] in *.
    + destruct (loop_raise_is_last callback stop_requested interval fuel st1)
        as (more & Hmore & _ & Hlast).
      rewrite Hmore, Hk. cbn [app]. exact Hlast.
    + rewrite Hk. intros i c b H. discriminate H.
  - intros Hpos Hclear Hraise Hfuel.
    destruct fuel as [|[|fuel]]; [lia|lia|].
    rewrite (task_timer_prologue interval Hpos).
    set (st1 := {| TaskTimer.clock := _ |}).
    assert (Hrun : TaskTimer.stop_event st1 || stop_requested (TaskTimer.clock st1) = false)
      by (rewrite Hclear; reflexivity).
    destruct (loop_round callback stop_requested (S fuel) interval st1 Hrun)
      as (st' & Hcall & ->).
    destruct (guarded_callback_full callback st1) as (st2 & Hcall2 & Hcalls & _ & Hflag).
    rewrite Hcall in Hcall2. injection Hcall2 as <-.
    rewrite (sleep_to_next_interval_spec interval Hpos).
    rewrite loop_stopped.
    + cbn [fst snd TaskTimer.calls TaskTimer.stop_event]. rewrite Hcalls, Hflag.
      cbn [st1 TaskTimer.calls TaskTimer.stop_event app length orb].
      specialize (Hraise (TaskTimer.clock st1)).
      destruct (snd (callback (TaskTimer.clock st1))); [|contradiction].
      repeat split.
    + cbn [TaskTimer.stop_event]. rewrite Hflag.
      specialize (Hraise (TaskTimer.clock st1)).
      destruct (snd (callback (TaskTimer.clock st1))); [|contradiction].
      cbn [st1 TaskTimer.stop_event orb]. reflexivity.
Qed.

Example task_timer_callback_raises_once :
  let res := TaskTimer.task_timer (fun _ => (1 # 2, Some (OtherError "boom"))%Q)
               (fun _ => false) 5 60 (TaskTimer.start (inject_Z 1667476823)) in
  snd res = Ok TaskTimer.Returned
  /\ length (TaskTimer.calls (fst res)) = 1%nat
  /\ List.map fst (TaskTimer.logger (fst res)) = [INFO; INFO; INFO; ERROR; INFO; DEBUG].
Proof. vm_compute. repeat split. Qed.

Section TimerEnvTestFacts.
Import TimerEnv.
Local Open Scope Q_scope.

Variable interval : Z.
Hypothesis interval_pos : (0 < interval)%Z.
Variable fl : Q -> Q.
Hypothesis fl_range :
  forall q : Q, 0 <= q <= inject_Z interval -> 0 <= fl q <= inject_Z interval.
Variable timestamp : Q -> Q.
Variable lag : Q -> Q -> Q.
Variable callback : Q -> Q * option Exn.
Variable stop_requested : Q -> bool.
Variable latency : Q -> Q.

(** The loop keeps what holds of every call that follows a test of the
    loop condition that found no stop. *)
Lemma loop_calls_tested (P : Q * Q -> Prop) :
  (forall w back : Q, stop_requested w = false -> P ((w + latency w)%Q, back)) ->
  forall (fuel : nat) (st : state),
    Forall P (calls st) ->
    Forall P (calls (fst (loop callback stop_requested timestamp fl lag latency
                            fuel interval st))).
Proof.
  intros HP. induction fuel as [|fuel IH]; intros st Hst; [exact Hst|].
  rewrite (loop_step interval interval_pos fl fl_range).
  destruct (stop_event st || stop_requested (clock st)) eqn:Hstop; [exact Hst|].
  apply orb_false_iff in Hstop as [_ Hreq].
  destruct (guarded_callback_env callback latency st) as (st' & Hcall & Hcalls & _).
  rewrite Hcall. cbn [fst].
  rewrite (sleep_to_next_interval_env interval interval_pos fl fl_range). cbn [fst].
  apply IH. cbn [calls]. rewrite Hcalls. apply Forall_app. split; [exact Hst|].
  constructor; [apply HP, Hreq|constructor].
Qed.

End TimerEnvTestFacts.

(** X10.  The callback is called only after a test of the stop event that
    found it clear: every call on record was made the time of one logger
    call after a clock at which no stop was requested.  A stop requested
    after that test does not keep the call from being made. *)
Theorem task_timer_calls_follow_clear_test
        (callback : Q -> Q * option Exn) (stop_requested : Q -> bool)
        (timestamp fl : Q -> Q) (lag : Q -> Q -> Q) (latency : Q -> Q)
        (interval : Z) (now : Q) (fuel : nat) :
  (0 < interval)%Z ->
  (forall q : Q, 0 <= q <= inject_Z interval -> 0 <= fl q <= inject_Z interval)%Q ->
  Forall (fun c : Q * Q =>
            exists w : Q, fst c = (w + latency w)%Q /\ stop_requested w = false)
    (TimerEnv.calls
       (fst (TimerEnv.task_timer callback stop_requested timestamp fl lag latency
               fuel interval (TimerEnv.start now)))).
Proof.
  intros Hpos Hfl. rewrite (task_timer_prologue_env interval Hpos fl Hfl).
  apply (loop_calls_tested interval Hpos fl Hfl); [|constructor].
  intros w back Hw. exists w. split; [reflexivity|exact Hw].
Qed.

Lemma task_timer_calls_follow_clear_test_witness :
  Forall (fun c : Q * Q =>
            exists w : Q, fst c = (w + (1 # 1000))%Q
                          /\ Qle_bool (1667476860 + (1 # 2000)) w = false)
    (TimerEnv.calls
       (fst (TimerEnv.task_timer (fun _ => (1 # 2, None)%Q)
               (fun t => Qle_bool (1667476860 + (1 # 2000)) t)
               TimerEnv.exact TimerEnv.exact TimerEnv.punctual (fun _ => (1 # 1000)%Q)
               5 60 (TimerEnv.start (inject_Z 1667476823))))).
Proof.
  exact (task_timer_calls_follow_clear_test
           (fun _ => (1 # 2, None)%Q)
           (fun t => Qle_bool (1667476860 + (1 # 2000)) t)
           TimerEnv.exact TimerEnv.exact TimerEnv.punctual (fun _ => (1 # 1000)%Q)
           60 (inject_Z 1667476823) 5 eq_refl (fun q H => H)).
Defined.

(** Interval 60, started at 12:00:23; a stop is requested half a
    millisecond after 12:01:00 and the logger call takes a millisecond: the
    test at 12:01:00 finds no stop, the callback is called at 12:01:00.001,
    after the request, and the timer returns at the next test. *)
Example task_timer_stop_between_test_and_call :
  let stop_requested := fun t : Q => Qle_bool (1667476860 + (1 # 2000)) t in
  let res := TimerEnv.task_timer (fun _ => (1 # 2, None)%Q) stop_requested
               TimerEnv.exact TimerEnv.exact TimerEnv.punctual (fun _ => (1 # 1000)%Q)
               5 60 (TimerEnv.start (inject_Z 1667476823)) in
  List.map (fun c => (Qred (fst c), stop_requested (fst c))) (TimerEnv.calls (fst res))
  = [((1667476860001 # 1000)%Q, true)]
  /\ snd res = Ok TaskTimer.Returned.
Proof. vm_compute. split; reflexivity. Qed.

Section TimerOrderFacts.
Import TaskTimer.
Local Open Scope Q_scope.

Lemma on_boundaries_consecutive (interval : Z) (cs : list (Q * Q)) :
  forall (t : Q) (i : nat) (c1 b1 c2 b2 : Q),
    on_boundaries interval t cs ->
    cs !! i = Some (c1, b1) -> cs !! S i = Some (c2, b2) ->
    c2 == next_boundary interval b1.
Proof.
  induction cs as [|[c b] cs IH]; intros t i c1 b1 c2 b2 Hon Hi Hsi; [discriminate|].
  destruct Hon as [_ Hon]. destruct i as [|i].
  - injection Hi as -> ->. destruct cs as [|[c' b'] cs]; [discriminate|].
    injection Hsi as -> ->. apply Hon.
  - exact (IH b i c1 b1 c2 b2 Hon Hi Hsi).
Qed.

End TimerOrderFacts.

(** X11.  With a positive interval and a callback that takes no negative
    time, every call is made strictly after the call before it came back:
    the callback is never called twice for one boundary, and never while an
    earlier call is still under way. *)
Theorem task_timer_calls_strictly_ordered
        (callback : Q -> Q * option Exn) (stop_requested : Q -> bool)
        (interval : Z) (now : Q) (fuel : nat) :
  (0 < interval)%Z ->
  (forall t : Q, (0 <= fst (callback t))%Q) ->
  let st := fst (TaskTimer.task_timer callback stop_requested fuel interval
                   (TaskTimer.start now)) in
  forall (i : nat) (c1 b1 c2 b2 : Q),
    TaskTimer.calls st !! i = Some (c1, b1) ->
    TaskTimer.calls st !! S i = Some (c2, b2) ->
    (c1 <= b1)%Q /\ (b1 < c2)%Q.
Proof.
  intros Hpos Hdur st i c1 b1 c2 b2 Hi Hsi. subst st.
  rewrite (task_timer_prologue interval Hpos) in Hi, Hsi.
  set (st1 := {| TaskTimer.clock := _ |}) in *.
  assert (Hready : TaskTimer.ready interval now st1).
  { split; [exact Logic.I|]. apply delay_reaches_boundary. }
  pose proof (loop_keeps_ready interval Hpos callback stop_requested now fuel st1 Hready)
    as [Hon _].
  pose proof (loop_calls_forall callback stop_requested
                (fun call => (fst call <= snd call)%Q) interval) as Hall.
  specialize (Hall ltac:(intros t _; cbn [fst snd];
                         rewrite <- (Qplus_0_r t) at 1;
                         apply Qplus_le_r, Hdur) fuel st1 (Forall_nil_2 _)).
  split.
  - rewrite Forall_forall in Hall.
    apply (Hall (c1, b1)), list_elem_of_lookup. eauto.
  - rewrite (on_boundaries_consecutive interval _ now i c1 b1 c2 b2 Hon Hi Hsi).
    apply (next_boundary_is_next interval Hpos b1).
Qed.

Lemma task_timer_calls_strictly_ordered_witness :
  ((1667476860 # 1) <= (1667476950 # 1))%Q /\ ((1667476950 # 1) < (1667476980 # 1))%Q.
Proof.
  refine (task_timer_calls_strictly_ordered
            (fun _ => (90 # 1, None)%Q) (fun _ => false) 60
            (inject_Z 1667476823) 3 eq_refl _ 0%nat
            (1667476860 # 1)%Q (1667476950 # 1)%Q
            (1667476980 # 1)%Q (1667477070 # 1)%Q eq_refl eq_refl).
  intros t. cbn. discriminate.
Defined.

(* ===================================================================== *)
(** * Further properties: get_recorder_mappings                           *)
(* ===================================================================== *)

Section TableFacts.
Import Client ClientMore.
Implicit Types (m : gmap (list string) NSLC) (now : UTCDateTime).

(** The body of the channel loop stores the code of the channel under
    the key of the channel. *)
Lemma map_channel_key now (cur_channel : Channel) m :
  map_channel now cur_channel m
  = try key <- channel_key now cur_channel; Ok (<[key := nslc cur_channel]> m).
Proof.
  unfold map_channel, channel_key.
  destruct (index (get_stream cur_channel now) 0) as [tb|e]; cbn [rbind]; [|reflexivity].
  destruct (index (str_split ":" (name tb)) 0); cbn [rbind]; [|reflexivity].
  destruct (index (str_split ":" (name tb)) 1); reflexivity.
Qed.

(** The two nested loops are one loop over all channels. *)
Lemma map_stations_all_channels now (station_list : list Station) :
  forall m,
    map_stations now station_list m = map_channels now (all_channels station_list) m.
Proof.
  unfold all_channels.
  induction station_list as [|s station_list IH]; intros m; [reflexivity|].
  cbn [map_stations List.map List.concat].
  generalize (channels s) as chans. intros chans. revert m.
  induction chans as [|c chans IHc]; intros m; cbn [map_channels app].
  - apply IH.
  - destruct (map_channel now c m); cbn [rbind]; [apply IHc|reflexivity].
Qed.

Lemma map_channels_app now (a b : list Channel) :
  forall m,
    map_channels now (a ++ b) m
    = try m1 <- map_channels now a m; map_channels now b m1.
Proof.
  induction a as [|c a IH]; intros m; cbn [app map_channels rbind]; [reflexivity|].
  destruct (map_channel now c m); cbn [rbind]; [apply IH|reflexivity].
Qed.

(** What a successful run of the channel loop leaves in the table. *)
Lemma map_channels_ok now (chans : list Channel) :
  forall m m',
    map_channels now chans m = Ok m' ->
    (forall key, is_Some (m !! key) -> is_Some (m' !! key))
    /\ (forall ch, ch ∈ chans ->
                   exists key, channel_key now ch = Ok key /\ is_Some (m' !! key))
    /\ (forall key v, m' !! key = Some v ->
                      m !! key = Some v
                      \/ exists ch, ch ∈ chans /\ channel_key now ch = Ok key
                                    /\ nslc ch = v).
Proof.
  induction chans as [|c chans IH]; intros m m' Hrun; cbn [map_channels] in Hrun.
  - injection Hrun as <-. split; [auto|]. split; [|auto].
    intros ch Hin. inversion Hin.
  - rewrite map_channel_key in Hrun.
    destruct (channel_key now c) as [k|e] eqn:Hk; [|discriminate Hrun].
    cbn [rbind] in Hrun. destruct (IH _ _ Hrun) as (Hkeep & Hdom & Hran).
    split; [|split].
    + intros key Hs. apply Hkeep.
      destruct (decide (k = key)) as [->|Hne];
        [rewrite lookup_insert_eq; eauto|rewrite lookup_insert_ne by exact Hne; exact Hs].
    + intros ch Hin. apply elem_of_cons in Hin as [->|Hin]; [|apply Hdom, Hin].
      exists k. split; [exact Hk|]. apply Hkeep. rewrite lookup_insert_eq. eauto.
    + intros key v Hv. destruct (Hran key v Hv) as [Hm|(ch & Hin & Hck & Hn)].
      * destruct (decide (k = key)) as [->|Hne].
        -- rewrite lookup_insert_eq in Hm. injection Hm as <-.
           right. exists c. split; [apply list_elem_of_here|]. split; [exact Hk|reflexivity].
        -- rewrite lookup_insert_ne in Hm by exact Hne. left. exact Hm.
      * right. exists ch. split; [apply list_elem_of_further, Hin|]. split; assumption.
Qed.

(** Channels with other keys leave the entry of a key alone. *)
Lemma map_channels_other now (chans : list Channel) (key : list string) :
  forall m m',
    (forall ch, ch ∈ chans -> channel_key now ch <> Ok key) ->
    map_channels now chans m = Ok m' -> m' !! key = m !! key.
Proof.
  induction chans as [|c chans IH]; intros m m' Hother Hrun; cbn [map_channels] in Hrun.
  - injection Hrun as <-. reflexivity.
  - rewrite map_channel_key in Hrun.
    destruct (channel_key now c) as [k|e] eqn:Hk; [|discriminate Hrun].
    cbn [rbind] in Hrun. rewrite (IH _ _ (fun ch H => Hother ch (list_elem_of_further _ _ _ H)) Hrun).
    apply lookup_insert_ne. intros ->. apply (Hother c); [apply list_elem_of_here|exact Hk].
Qed.

(** The shape of a key. *)
Lemma channel_key_shape now (ch : Channel) (key : list string) :
  channel_key now ch = Ok key ->
  exists tb more cur_loc cur_chan rest,
    get_stream ch now = tb :: more
    /\ str_split ":" (name tb) = cur_loc :: cur_chan :: rest
    /\ key = ["XX"; serial tb; cur_loc; cur_chan].
Proof.
  unfold channel_key, index.
  destruct (get_stream ch now) as [|tb more]; [discriminate|].
  cbn [lookup list_lookup rbind].
  destruct (str_split ":" (name tb)) as [|cur_loc [|cur_chan rest]] eqn:Hs;
    cbn [lookup list_lookup rbind]; [discriminate|discriminate|].
  intros [= <-]. exists tb, more, cur_loc, cur_chan, rest. repeat split. exact Hs.
Qed.

(** A successful call returns the table of the channel loop and logs it. *)
Lemma get_recorder_mappings_ok (inventory : Inventory) now
      (station_nsl : option (list Nsl)) (logger : list (level * msg))
      (table : gmap (list string) NSLC) :
  snd (get_recorder_mappings inventory now station_nsl logger) = Ok table ->
  exists station_list,
    select_stations inventory station_nsl = Ok station_list
    /\ map_channels now (all_channels station_list) ∅ = Ok table
    /\ get_recorder_mappings inventory now station_nsl logger
       = (logger ++ [(DEBUG, OfMap table)], Ok table).
Proof.
  unfold get_recorder_mappings, bind, lift, modify, ret.
  destruct (select_stations inventory station_nsl) as [station_list|e] eqn:Hsel;
    [|discriminate].
  rewrite map_stations_all_channels.
  destruct (map_channels now (all_channels station_list) ∅) as [m|e] eqn:Hrun;
    cbn; [|discriminate].
  intros [= <-]. exists station_list. split; [reflexivity|]. split; [exact Hrun|].
  reflexivity.
Qed.

End TableFacts.

(** X12.  The table that [get_recorder_mappings] returns holds exactly the
    channels of the selected stations: every channel has its key in the
    table, and every entry is the key of one of these channels bound to the
    code of that channel.  Each key is the placeholder network XX, the
    serial of the first recorder stream bound to the channel, and the first
    two colon-separated parts of the name of that stream. *)
Theorem get_recorder_mappings_table
        (inventory : Client.Inventory) (now : Client.UTCDateTime)
        (station_nsl : option (list Client.Nsl))
        (logger : list (level * Client.msg))
        (table : gmap (list string) Client.NSLC) :
  snd (Client.get_recorder_mappings inventory now station_nsl logger) = Ok table ->
  exists station_list,
    Client.select_stations inventory station_nsl = Ok station_list
    /\ (forall ch, ch ∈ ClientMore.all_channels station_list ->
                   exists key, ClientMore.channel_key now ch = Ok key
                               /\ is_Some (table !! key))
    /\ (forall key v, table !! key = Some v ->
                      exists ch tb more cur_loc cur_chan rest,
                        ch ∈ ClientMore.all_channels station_list
                        /\ Client.nslc ch = v
                        /\ Client.get_stream ch now = tb :: more
                        /\ str_split ":" (Client.name tb) = cur_loc :: cur_chan :: rest
                        /\ key = ["XX"; Client.serial tb; cur_loc; cur_chan]).
Proof.
  intros Hok. destruct (get_recorder_mappings_ok _ _ _ _ _ Hok) as (sl & Hsel & Hrun & _).
  exists sl. split; [exact Hsel|].
  destruct (map_channels_ok _ _ _ _ Hrun) as (_ & Hdom & Hran).
  split; [exact Hdom|].
  intros key v Hv. destruct (Hran key v Hv) as [Habs|(ch & Hin & Hk & Hn)].
  - rewrite lookup_empty in Habs. discriminate.
  - destruct (channel_key_shape _ _ _ Hk) as (tb & more & l & c & rest & H1 & H2 & H3).
    exists ch, tb, more, l, c, rest. repeat split; assumption.
Qed.

Lemma get_recorder_mappings_table_witness :
  exists station_list,
    Client.select_stations Sample.inventory None = Ok station_list
    /\ (forall ch, ch ∈ ClientMore.all_channels station_list ->
                   exists key, ClientMore.channel_key Sample.now ch = Ok key
                               /\ is_Some (Client.recorder_map Sample.client !! key)).
Proof.
  destruct (get_recorder_mappings_table Sample.inventory Sample.now None []
              (Client.recorder_map Sample.client) eq_refl) as (sl & Hsel & Hdom & _).
  exists sl. split; assumption.
Defined.

(** X13.  The build does not notice two channels with one key: the entry
    of a key is the code of the last channel, in the order of the loops,
    that has this key. *)
Theorem get_recorder_mappings_last_channel_wins
        (inventory : Client.Inventory) (now : Client.UTCDateTime)
        (station_nsl : option (list Client.Nsl))
        (logger : list (level * Client.msg))
        (table : gmap (list string) Client.NSLC)
        (station_list : list Client.Station)
        (before after : list Client.Channel) (ch : Client.Channel)
        (key : list string) :
  snd (Client.get_recorder_mappings inventory now station_nsl logger) = Ok table ->
  Client.select_stations inventory station_nsl = Ok station_list ->
  ClientMore.all_channels station_list = before ++ ch :: after ->
  ClientMore.channel_key now ch = Ok key ->
  (forall ch', ch' ∈ after -> ClientMore.channel_key now ch' <> Ok key) ->
  table !! key = Some (Client.nslc ch).
Proof.
  intros Hok Hsel Hsplit Hkey Hafter.
  destruct (get_recorder_mappings_ok _ _ _ _ _ Hok) as (sl & Hsel' & Hrun & _).
  rewrite Hsel in Hsel'. injection Hsel' as <-.
  rewrite Hsplit, map_channels_app in Hrun.
  destruct (Client.map_channels now before ∅) as [m1|e]; [|discriminate Hrun].
  cbn [rbind Client.map_channels] in Hrun. rewrite map_channel_key, Hkey in Hrun.
  cbn [rbind] in Hrun.
  rewrite (map_channels_other _ _ _ _ _ Hafter Hrun). apply lookup_insert_eq.
Qed.

Lemma get_recorder_mappings_last_channel_wins_witness :
  (<[ ["XX"; "9D6C"; "00"; "001"] := ("MSSNet", "DUBA", "00", "Hnormal") ]>
     (<[ ["XX"; "9D6C"; "00"; "001"] := ("MSSNet", "DUBA", "00", "Hparallel") ]>
        (∅ : gmap (list string) Client.NSLC)))
    !! ["XX"; "9D6C"; "00"; "001"]
  = Some ("MSSNet", "DUBA", "00", "Hnormal").
Proof.
  refine (get_recorder_mappings_last_channel_wins
            SampleMore.inventory_shared Sample.now None [] _
            [SampleMore.duba_shared] [Sample.bound_channel] []
            SampleMore.shared_channel ["XX"; "9D6C"; "00"; "001"]
            eq_refl eq_refl eq_refl eq_refl _).
  intros ch' H. inversion H.
Defined.

(** X14.  A requested station given by its three codes is found exactly
    when the inventory has one single match for them, and then it is that
    match. *)
Theorem find_station_unique_match
        (inventory : Client.Inventory) (network name location : string)
        (station : Client.Station) :
  Client.find_station inventory (Client.NslList [network; name; location]) = Ok station
  <-> Client.get_station inventory (Some network) (Some name) (Some location)
      = [station].
Proof.
  unfold Client.find_station. cbn [Client.nsl_index index lookup list_lookup rbind].
  destruct (Client.get_station inventory (Some network) (Some name) (Some location))
    as [|s [|s' more]]; cbn.
  - split; discriminate.
  - split; congruence.
  - split; discriminate.
Qed.

(** X15.  When the inventory has more than one match for a requested
    station, the stations requested before it being found,
    [get_recorder_mappings] raises the ValueError "There are more than one
    stations", logs nothing and returns no table. *)
Theorem ambiguous_station_raises
        (inventory : Client.Inventory) (now : Client.UTCDateTime)
        (logger : list (level * Client.msg))
        (before : list Client.Nsl) (network name location : string)
        (rest : list Client.Nsl) :
  Forall (fun nsl => is_ok (Client.find_station inventory nsl) = true) before ->
  (1 < length (Client.get_station inventory (Some network) (Some name)
                 (Some location)))%nat ->
  Client.get_recorder_mappings inventory now
    (Some (before ++ Client.NslList [network; name; location] :: rest)) logger
  = (logger,
     Raise (ValueError "There are more than one stations. This is not yet supported.")).
Proof.
  intros Hbefore Hlen. apply get_recorder_mappings_station_failure; [exact Hbefore|].
  apply (find_station_ambiguous inventory _ network name location);
    [reflexivity..|exact Hlen].
Qed.

Lemma ambiguous_station_raises_witness :
  Client.get_recorder_mappings SampleMore.inventory_twice Sample.now
    (Some [Client.NslList ["MSSNet"; "DUBA"; "00"]]) []
  = ([], Raise (ValueError "There are more than one stations. This is not yet supported.")).
Proof.
  refine (ambiguous_station_raises SampleMore.inventory_twice Sample.now []
            [] "MSSNet" "DUBA" "00" [] _ _).
  - constructor.
  - cbn. lia.
Defined.

(** X16.  A requested station given with fewer than three codes makes
    [get_recorder_mappings] raise IndexError, whatever the inventory holds;
    nothing is logged and no table is returned. *)
Theorem short_station_request_raises
        (inventory : Client.Inventory) (now : Client.UTCDateTime)
        (logger : list (level * Client.msg))
        (before : list Client.Nsl) (codes : list string) (rest : list Client.Nsl) :
  Forall (fun nsl => is_ok (Client.find_station inventory nsl) = true) before ->
  (length codes < 3)%nat ->
  Client.get_recorder_mappings inventory now
    (Some (before ++ Client.NslList codes :: rest)) logger
  = (logger, Raise IndexError).
Proof.
  intros Hbefore Hlen. apply get_recorder_mappings_station_failure; [exact Hbefore|].
  unfold Client.find_station, Client.nsl_index, index.
  destruct codes as [|a [|b [|c codes]]]; cbn in *; try reflexivity. lia.
Qed.

Lemma short_station_request_raises_witness :
  Client.get_recorder_mappings Sample.inventory Sample.now
    (Some [Client.NslList ["MSSNet"; "DUBA"]]) []
  = ([], Raise IndexError).
Proof.
  refine (short_station_request_raises Sample.inventory Sample.now []
            [] ["MSSNet"; "DUBA"] [] _ _).
  - constructor.
  - cbn. lia.
Defined.

(* ===================================================================== *)
(** * Further properties: on_data                                         *)
(* ===================================================================== *)

Section DeliverFacts.
Import Client ClientMore.

(** One call of [on_data], whatever it returns: the buffer grows by what
    was accepted, the table and the output directory stay. *)
Lemma on_data_effect (trace : Trace) (self : t) :
  stream (fst (on_data trace self)) = stream self ++ accepted (recorder_map self) trace
  /\ recorder_map (fst (on_data trace self)) = recorder_map self
  /\ data_dir (fst (on_data trace self)) = data_dir self.
Proof.
  unfold accepted. destruct (recorder_map self !! source_id trace) as [cur_nslc|] eqn:Hl.
  - rewrite (on_data_mapped _ _ _ Hl). repeat split.
  - rewrite (on_data_unmapped _ _ Hl). cbn [fst stream recorder_map data_dir].
    rewrite app_nil_r. repeat split.
Qed.

Lemma deliver_effect (traces : list Trace) :
  forall self : t,
    stream (deliver traces self)
    = stream self ++ List.concat (List.map (accepted (recorder_map self)) traces)
    /\ recorder_map (deliver traces self) = recorder_map self
    /\ data_dir (deliver traces self) = data_dir self.
Proof.
  induction traces as [|trace traces IH]; intros self0; cbn [deliver List.map List.concat].
  - rewrite app_nil_r. repeat split.
  - destruct (on_data_effect trace self0) as (Hs & Hm & Hd).
    destruct (IH (fst (on_data trace self0))) as (IHs & IHm & IHd).
    rewrite IHs, IHm, IHd, Hs, Hm, Hd, <- app_assoc. repeat split.
Qed.

(** The pieces of a string that splits into one piece only. *)
Lemma split_on_single (p : ascii -> bool) (s w : string) :
  split_on p s = [w] -> w = s.
Proof.
  revert w. induction s as [|c s IH]; intros w; cbn [split_on].
  - intros [= <-]. reflexivity.
  - destruct (p c).
    + intros [= _ H]. destruct (split_on_nonempty p s H).
    + destruct (split_on p s) as [|w' ws] eqn:Hs; [intros [= <-]|].
      * destruct (split_on_nonempty p s Hs).
      * intros [= <- ->]. rewrite (IH w' eq_refl). reflexivity.
Qed.

Lemma four_singletons {A : Type} (l1 l2 l3 l4 : list A) (a b c d : A) :
  l1 <> [] -> l2 <> [] -> l3 <> [] -> l4 <> [] ->
  l1 ++ l2 ++ l3 ++ l4 = [a; b; c; d] ->
  l1 = [a] /\ l2 = [b] /\ l3 = [c] /\ l4 = [d].
Proof.
  intros H1 H2 H3 H4 H.
  destruct l1 as [|x1 l1]; [contradiction|]. destruct l2 as [|x2 l2]; [contradiction|].
  destruct l3 as [|x3 l3]; [contradiction|]. destruct l4 as [|x4 l4]; [contradiction|].
  pose proof (f_equal length H) as Hlen. cbn [length app] in Hlen.
  repeat (rewrite length_app in Hlen; cbn [length] in Hlen).
  assert (l1 = []) as -> by (destruct l1; [reflexivity|cbn in Hlen; lia]).
  assert (l2 = []) as -> by (destruct l2; [reflexivity|cbn in Hlen; lia]).
  assert (l3 = []) as -> by (destruct l3; [reflexivity|cbn in Hlen; lia]).
  assert (l4 = []) as -> by (destruct l4; [reflexivity|cbn in Hlen; lia]).
  cbn in H. injection H as -> -> -> ->. repeat split.
Qed.

(** A trace identifier that splits into four parts at its dots splits
    into the four codes of the trace. *)
Lemma source_id_four (trace : Trace) (a b c d : string) :
  source_id trace = [a; b; c; d] ->
  a = network trace /\ b = station trace /\ c = location trace /\ d = channel trace.
Proof.
  unfold source_id, id, str_split.
  change (network trace ++ "." ++ station trace ++ "." ++ location trace ++ "."
            ++ channel trace)%string
    with (network trace ++ String "." (station trace ++ String "."
            (location trace ++ String "." (channel trace))))%string.
  rewrite !(split_on_app _ ".") by reflexivity.
  intros H. apply four_singletons in H as (Hn & Hs & Hl & Hc);
    try apply split_on_nonempty.
  rewrite (split_on_single _ _ _ Hn), (split_on_single _ _ _ Hs),
    (split_on_single _ _ _ Hl), (split_on_single _ _ _ Hc).
  repeat split.
Qed.

End DeliverFacts.

(** X17.  After any sequence of [on_data] calls the buffer holds, behind
    what it held before, exactly the batches whose identifier is in the
    table, each rewritten to its destination, in the order of arrival; the
    batches with an unknown identifier leave nothing behind, and the table
    and the output directory are never changed. *)
Theorem on_data_sequence_buffers_mapped_batches
        (traces : list Client.Trace) (self : Client.t) :
  Client.stream (ClientMore.deliver traces self)
  = Client.stream self
      ++ List.concat (List.map (ClientMore.accepted (Client.recorder_map self)) traces)
  /\ Client.recorder_map (ClientMore.deliver traces self) = Client.recorder_map self
  /\ Client.data_dir (ClientMore.deliver traces self) = Client.data_dir self.
Proof. apply deliver_effect. Qed.

Example on_data_sequence_example :
  Client.stream (ClientMore.deliver [Sample.batch1; Sample.stray; Sample.batch2]
                   Sample.client)
  = [Sample.remapped1; Sample.remapped2].
Proof. reflexivity. Qed.

(** X18.  With a table built by [get_recorder_mappings], [on_data] accepts
    a batch only when its network code is the placeholder XX and its
    station, location and channel codes are the serial and the two name
    parts of the recorder stream bound to a channel of a selected station;
    the batch then leaves with the code of a channel bound to that
    stream. *)
Theorem on_data_accepts_only_bound_streams
        (inventory : Client.Inventory) (now : Client.UTCDateTime)
        (station_nsl : option (list Client.Nsl))
        (logger : list (level * Client.msg))
        (self : Client.t) (trace : Client.Trace) :
  snd (Client.get_recorder_mappings inventory now station_nsl logger)
  = Ok (Client.recorder_map self) ->
  snd (Client.on_data trace self) = Ok tt ->
  Client.network trace = "XX"
  /\ exists station_list ch tb more rest,
      Client.select_stations inventory station_nsl = Ok station_list
      /\ ch ∈ ClientMore.all_channels station_list
      /\ Client.get_stream ch now = tb :: more
      /\ Client.station trace = Client.serial tb
      /\ str_split ":" (Client.name tb)
         = Client.location trace :: Client.channel trace :: rest
      /\ Client.stream (fst (Client.on_data trace self))
         = Client.stream self ++ [Client.set_nslc trace (Client.nslc ch)].
Proof.
  intros Htable Hok.
  destruct (Client.recorder_map self !! Client.source_id trace) as [cur_nslc|] eqn:Hl.
  - destruct (get_recorder_mappings_ok _ _ _ _ _ Htable) as (sl & Hsel & Hrun & _).
    destruct (map_channels_ok _ _ _ _ Hrun) as (_ & _ & Hran).
    destruct (Hran _ _ Hl) as [Habs|(ch & Hin & Hk & Hn)];
      [rewrite lookup_empty in Habs; discriminate|].
    destruct (channel_key_shape _ _ _ Hk) as (tb & more & l & c & rest & H1 & H2 & H3).
    destruct (source_id_four _ _ _ _ _ H3) as (Hnet & Hsta & Hloc & Hcha).
    split; [symmetry; exact Hnet|].
    exists sl, ch, tb, more, rest. rewrite <- Hsta, <- Hloc, <- Hcha, Hn.
    rewrite (on_data_mapped _ _ _ Hl). repeat split; assumption.
  - rewrite (on_data_unmapped _ _ Hl) in Hok. discriminate Hok.
Qed.

Lemma on_data_accepts_only_bound_streams_witness :
  Client.network Sample.batch1 = "XX".
Proof.
  exact (proj1 (on_data_accepts_only_bound_streams
                  Sample.inventory Sample.now None [] Sample.client Sample.batch1
                  eq_refl eq_refl)).
Defined.

(* ===================================================================== *)
(** * Further properties: save_data                                       *)
(* ===================================================================== *)

Section SaveDataMoreFacts.
Import Client.
Variable merge : Stream -> result Stream.
Variable split : Stream -> Stream.
Variable isoformat : UTCDateTime -> string.
Variable write : gset string -> string -> Stream -> gset string * option Exn.

(** [save_data] when [merge] raises. *)
Lemma save_data_merge_raises (w : world) (e : Exn) :
  merge (stream (self w)) = Raise e ->
  save_data merge split isoformat write w
  = ({| self := {| recorder_map := recorder_map (self w);
                   data_dir := data_dir (self w); stream := [];
                   logger := logger (self w) ++ [(INFO, Text "Saving the data.")] |};
        files := files w; codec_calls := codec_calls w |}, Raise e).
Proof.
  intros Hm. unfold save_data, bind, on_self, log, drain, modify, gets, lift,
    set_stream, ret, copy. cbn. rewrite Hm. reflexivity.
Qed.

(** Whatever the cycle runs into, the client it leaves has an empty
    buffer and its table and output directory. *)
Lemma save_data_client (w : world) :
  let self' := self (fst (save_data merge split isoformat write w)) in
  stream self' = [] /\ recorder_map self' = recorder_map (self w)
  /\ data_dir self' = data_dir (self w).
Proof.
  destruct (merge (stream (self w))) as [export_stream|e] eqn:Hm;
    [|rewrite (save_data_merge_raises _ _ Hm); repeat split].
  destruct export_stream as [|x xs].
  { rewrite (save_data_nothing_to_export _ _ _ _ _ Hm). repeat split. }
  rewrite (save_data_to_codec merge split isoformat write w (x :: xs) _ _ Hm eq_refl eq_refl).
  unfold stream_write. cbn [drained_world files codec_calls self].
  destruct (write _ _ _) as [files' [e|]]; [|repeat split].
  destruct e; try (repeat split; fail).
  unfold bind, on_self, log, modify, os_remove. cbn.
  destruct (bool_decide _); repeat split.
Qed.

End SaveDataMoreFacts.

(** X19.  Every write cycle leaves the buffer empty and the table and the
    output directory as they were, whether it returns or raises: what was
    drained is never put back, so the data of a failed cycle are lost. *)
Theorem save_data_always_drains
        (merge : Client.Stream -> result Client.Stream)
        (split : Client.Stream -> Client.Stream)
        (isoformat : Client.UTCDateTime -> string)
        (write : gset string -> string -> Client.Stream -> gset string * option Exn)
        (w : Client.world) :
  let self' := Client.self (fst (Client.save_data merge split isoformat write w)) in
  Client.stream self' = []
  /\ Client.recorder_map self' = Client.recorder_map (Client.self w)
  /\ Client.data_dir self' = Client.data_dir (Client.self w).
Proof. apply save_data_client. Qed.

(** X20.  What a write cycle does with the outcome of the codec, too
    little data apart: when the codec returns the cycle returns; when it
    refuses masked data (NotImplementedError) the cycle logs an error and
    returns; any other exception leaves the cycle as it is.  In each case
    the files are as the codec left them. *)
Theorem save_data_outcome_by_codec
        (merge : Client.Stream -> result Client.Stream)
        (split : Client.Stream -> Client.Stream)
        (isoformat : Client.UTCDateTime -> string)
        (write : gset string -> string -> Client.Stream -> gset string * option Exn)
        (w : Client.world) (export_stream : Client.Stream)
        (cur_start cur_end : Client.UTCDateTime)
        (files' : gset string) (exn : option Exn) :
  merge (Client.stream (Client.self w)) = Ok export_stream ->
  py_min (List.map Client.starttime export_stream) = Ok cur_start ->
  py_max (List.map Client.endtime export_stream) = Ok cur_end ->
  write (Client.files w)
        (Client.export_path isoformat (Client.data_dir (Client.self w)) cur_start cur_end)
        export_stream = (files', exn) ->
  (forall text, exn <> Some (ValueError text)) ->
  let w' := fst (Client.save_data merge split isoformat write w) in
  Client.files w' = files'
  /\ snd (Client.save_data merge split isoformat write w)
     = match exn with
       | None => Ok tt
       | Some (NotImplementedError _) => Ok tt
       | Some e => Raise e
       end
  /\ Client.logger (Client.self w')
     = Client.logger (Client.self w)
         ++ [(INFO, Client.Text "Saving the data.");
             (DEBUG, Client.OfStream export_stream)]
         ++ match exn with
            | Some (NotImplementedError _) =>
                [(ERROR, Client.Text "Error when writing the miniseed file with masked data. Clearing the stream and #going on.")]
            | _ => []
            end.
Proof.
  intros Hm Hmin Hmax Hw Hnot w'. subst w'.
  rewrite (save_data_to_codec _ _ _ _ _ _ _ _ Hm Hmin Hmax).
  unfold Client.stream_write.
  cbn [Client.drained_world Client.files Client.codec_calls Client.self].
  rewrite Hw. destruct exn as [e|].
  - destruct e; try (cbn; rewrite ?app_nil_r; repeat split; fail).
    + exfalso. exact (Hnot msg eq_refl).
    + unfold Client.on_self, Client.log, modify. cbn.
      rewrite <- app_assoc. repeat split.
  - cbn. rewrite ?app_nil_r. repeat split.
Qed.

Lemma save_data_outcome_by_codec_witness :
  let w := Sample.world_of Sample.client_two_batches in
  snd (Client.save_data Sample.merge Sample.split Sample.isoformat (Sample.write 1) w)
  = Ok tt.
Proof.
  intros w.
  refine (proj1 (proj2 (save_data_outcome_by_codec
                   Sample.merge Sample.split Sample.isoformat (Sample.write 1) w
                   [Sample.join Sample.remapped1 Sample.remapped2]
                   1667476800000000000 1667476822000000000
                   ∅ (Some (NotImplementedError "Masked array writing is not supported."))
                   eq_refl eq_refl eq_refl eq_refl _))).
  intros text. discriminate.
Defined.

(** X21.  When the codec raises the ValueError of too little data and no
    file exists at the export path afterwards, the removal of the file
    raises FileNotFoundError, which leaves the write cycle; the files are
    as the codec left them. *)
Theorem save_data_insufficient_data_without_file_raises
        (merge : Client.Stream -> result Client.Stream)
        (split : Client.Stream -> Client.Stream)
        (isoformat : Client.UTCDateTime -> string)
        (write : gset string -> string -> Client.Stream -> gset string * option Exn)
        (w : Client.world) (export_stream : Client.Stream)
        (cur_start cur_end : Client.UTCDateTime)
        (files' : gset string) (text : string) :
  let cur_filepath :=
    Client.export_path isoformat (Client.data_dir (Client.self w)) cur_start cur_end in
  merge (Client.stream (Client.self w)) = Ok export_stream ->
  py_min (List.map Client.starttime export_stream) = Ok cur_start ->
  py_max (List.map Client.endtime export_stream) = Ok cur_end ->
  write (Client.files w) cur_filepath export_stream = (files', Some (ValueError text)) ->
  cur_filepath ∉ files' ->
  snd (Client.save_data merge split isoformat write w)
  = Raise (FileNotFoundError cur_filepath)
  /\ Client.files (fst (Client.save_data merge split isoformat write w)) = files'.
Proof.
  intros cur_filepath Hm Hmin Hmax Hw Hnotin.
  rewrite (save_data_to_codec _ _ _ _ _ _ _ _ Hm Hmin Hmax).
  fold cur_filepath. unfold Client.stream_write.
  cbn [Client.drained_world Client.files Client.codec_calls Client.self].
  rewrite Hw. unfold bind, Client.on_self, Client.log, modify, Client.os_remove.
  cbn. rewrite bool_decide_eq_false_2 by exact Hnotin. split; reflexivity.
Qed.

Lemma save_data_insufficient_data_without_file_raises_witness :
  let w := Sample.world_of Sample.client_short_batch in
  snd (Client.save_data Sample.merge Sample.split Sample.isoformat
         (fun files _ _ => (files, Some (ValueError "Invalid record"))) w)
  = Raise (FileNotFoundError
             (Client.export_path Sample.isoformat "/data/mseed"
                1667476820000000000 1667476822000000000)).
Proof.
  intros w.
  refine (proj1 (save_data_insufficient_data_without_file_raises
                   Sample.merge Sample.split Sample.isoformat
                   (fun files _ _ => (files, Some (ValueError "Invalid record"))) w
                   [Sample.remapped2] 1667476820000000000 1667476822000000000
                   ∅ "Invalid record" eq_refl eq_refl eq_refl eq_refl _)).
  apply not_elem_of_empty.
Defined.

(** X22.  When merging the drained batches raises, the exception leaves
    the write cycle before the codec is called or a file is touched; the
    buffer has been emptied all the same. *)
Theorem save_data_merge_failure_propagates
        (merge : Client.Stream -> result Client.Stream)
        (split : Client.Stream -> Client.Stream)
        (isoformat : Client.UTCDateTime -> string)
        (write : gset string -> string -> Client.Stream -> gset string * option Exn)
        (w : Client.world) (e : Exn) :
  merge (Client.stream (Client.self w)) = Raise e ->
  let w' := fst (Client.save_data merge split isoformat write w) in
  snd (Client.save_data merge split isoformat write w) = Raise e
  /\ Client.files w' = Client.files w
  /\ Client.codec_calls w' = Client.codec_calls w
  /\ Client.stream (Client.self w') = [].
Proof.
  intros Hm w'. subst w'. rewrite (save_data_merge_raises _ _ _ _ _ _ Hm).
  repeat split.
Qed.

Lemma save_data_merge_failure_propagates_witness :
  snd (Client.save_data
         (fun _ => Raise (OtherError "Can't merge traces with same ids but differing sampling rates!"))
         Sample.split Sample.isoformat (Sample.write 1)
         (Sample.world_of Sample.client_two_batches))
  = Raise (OtherError "Can't merge traces with same ids but differing sampling rates!").
Proof.
  exact (proj1 (save_data_merge_failure_propagates
                  (fun _ => Raise (OtherError "Can't merge traces with same ids but differing sampling rates!"))
                  Sample.split Sample.isoformat (Sample.write 1)
                  (Sample.world_of Sample.client_two_batches) _ eq_refl)).
Defined.

Section ExportFacts.
Import Client.

Lemma all_chars_app (p : ascii -> bool) (a b : string) :
  all_chars p (a ++ b)%string = all_chars p a && all_chars p b.
Proof.
  induction a as [|c a IH]; cbn [String.append all_chars]; [reflexivity|].
  simpl. rewrite IH, andb_assoc. reflexivity.
Qed.

Lemma str_remove_removes (c : ascii) (s : string) :
  all_chars (fun a => negb (Ascii.eqb a c)) (str_remove c s) = true.
Proof.
  induction s as [|a s IH]; cbn [str_remove all_chars]; [reflexivity|].
  destruct (Ascii.eqb a c) eqn:Ha; [exact IH|].
  cbn [all_chars]. rewrite Ha, IH. reflexivity.
Qed.

Lemma min_from_spec (l : list Z) :
  forall m : Z,
    (min_from m l = m \/ min_from m l ∈ l)
    /\ min_from m l <= m /\ (forall x, x ∈ l -> min_from m l <= x).
Proof.
  induction l as [|y l IH]; intros m; cbn [min_from].
  - split; [left; reflexivity|]. split; [lia|]. intros x Hx. inversion Hx.
  - destruct (IH (if y <? m then y else m)) as (Hin & Hle & Hall).
    destruct (Z.ltb_spec y m) as [Hlt|Hge].
    + split; [right; destruct Hin as [->|Hin];
              [apply list_elem_of_here|apply list_elem_of_further, Hin]|].
      split; [lia|]. intros x Hx. apply elem_of_cons in Hx as [->|Hx];
        [exact Hle|apply Hall, Hx].
    + split; [destruct Hin as [->|Hin];
              [left; reflexivity|right; apply list_elem_of_further, Hin]|].
      split; [exact Hle|]. intros x Hx. apply elem_of_cons in Hx as [->|Hx];
        [lia|apply Hall, Hx].
Qed.

Lemma max_from_spec (l : list Z) :
  forall m : Z,
    (max_from m l = m \/ max_from m l ∈ l)
    /\ m <= max_from m l /\ (forall x, x ∈ l -> x <= max_from m l).
Proof.
  induction l as [|y l IH]; intros m; cbn [max_from].
  - split; [left; reflexivity|]. split; [lia|]. intros x Hx. inversion Hx.
  - destruct (IH (if m <? y then y else m)) as (Hin & Hle & Hall).
    destruct (Z.ltb_spec m y) as [Hlt|Hge].
    + split; [right; destruct Hin as [->|Hin];
              [apply list_elem_of_here|apply list_elem_of_further, Hin]|].
      split; [lia|]. intros x Hx. apply elem_of_cons in Hx as [->|Hx];
        [exact Hle|apply Hall, Hx].
    + split; [destruct Hin as [->|Hin];
              [left; reflexivity|right; apply list_elem_of_further, Hin]|].
      split; [exact Hle|]. intros x Hx. apply elem_of_cons in Hx as [->|Hx];
        [lia|apply Hall, Hx].
Qed.

(** The earliest start and the latest end of a stream that is not empty
    are those of two of its traces. *)
Lemma time_span (s : Stream) :
  s <> [] ->
  exists first last,
    first ∈ s /\ last ∈ s
    /\ py_min (List.map starttime s) = Ok (starttime first)
    /\ py_max (List.map endtime s) = Ok (endtime last)
    /\ forall x, x ∈ s -> starttime first <= starttime x /\ endtime x <= endtime last.
Proof.
  destruct s as [|t0 s]; [contradiction|]. intros _. cbn [List.map py_min py_max].
  destruct (min_from_spec (List.map starttime s) (starttime t0)) as (Hin & Hle & Hall).
  destruct (max_from_spec (List.map endtime s) (endtime t0)) as (Hin' & Hle' & Hall').
  assert (Hfirst : exists first, first ∈ t0 :: s
                                 /\ min_from (starttime t0) (List.map starttime s)
                                    = starttime first).
  { destruct Hin as [->|Hin]; [exists t0; split; [apply list_elem_of_here|reflexivity]|].
    apply list_elem_of_In, in_map_iff in Hin as (f & Hf & Hfin).
    exists f. split; [apply list_elem_of_further, list_elem_of_In, Hfin|congruence]. }
  assert (Hlast : exists last, last ∈ t0 :: s
                               /\ max_from (endtime t0) (List.map endtime s)
                                  = endtime last).
  { destruct Hin' as [->|Hin']; [exists t0; split; [apply list_elem_of_here|reflexivity]|].
    apply list_elem_of_In, in_map_iff in Hin' as (f & Hf & Hfin).
    exists f. split; [apply list_elem_of_further, list_elem_of_In, Hfin|congruence]. }
  destruct Hfirst as (first & Hf1 & Hf2). destruct Hlast as (last & Hl1 & Hl2).
  exists first, last. rewrite <- Hf2, <- Hl2. repeat split; try assumption.
  - apply elem_of_cons in H as [->|Hx]; [exact Hle|].
    apply Hall, list_elem_of_In, in_map, list_elem_of_In, Hx.
  - apply elem_of_cons in H as [->|Hx]; [exact Hle'|].
    apply Hall', list_elem_of_In, in_map, list_elem_of_In, Hx.
Qed.

End ExportFacts.

(** X23.  The name of the export file holds no colon, whatever the
    rendering of the two times looks like, and the export path is the
    output directory followed by that name, with a slash between them unless
    the directory is empty or ends with one. *)
Theorem export_path_is_colon_free_file_in_data_dir
        (isoformat : Client.UTCDateTime -> string) (dir : string)
        (cur_start cur_end : Client.UTCDateTime) :
  all_chars (fun c => negb (Ascii.eqb c ":"))
            (Client.filename isoformat cur_start cur_end) = true
  /\ Client.export_path isoformat dir cur_start cur_end
     = (dir ++ (if (match dir with EmptyString => true | _ => false end)
                   || endswith "/" dir then "" else "/")
            ++ Client.filename isoformat cur_start cur_end)%string.
Proof.
  split.
  - unfold Client.filename. rewrite !all_chars_app, !str_remove_removes. reflexivity.
  - unfold Client.export_path, os_path_join.
    change (startswith "/" (Client.filename isoformat cur_start cur_end)) with false.
    cbn iota. destruct (_ || _); reflexivity.
Qed.

(** X24.  For a merged stream that is not empty the codec is called once,
    with the whole stream and with the path made from the start of a trace
    that starts no later than any other and the end of a trace that ends no
    earlier than any other. *)
Theorem save_data_names_file_by_time_span
        (merge : Client.Stream -> result Client.Stream)
        (split : Client.Stream -> Client.Stream)
        (isoformat : Client.UTCDateTime -> string)
        (write : gset string -> string -> Client.Stream -> gset string * option Exn)
        (w : Client.world) (export_stream : Client.Stream) :
  merge (Client.stream (Client.self w)) = Ok export_stream ->
  export_stream <> [] ->
  exists first last,
    first ∈ export_stream /\ last ∈ export_stream
    /\ (forall x, x ∈ export_stream ->
                  Client.starttime first <= Client.starttime x
                  /\ Client.endtime x <= Client.endtime last)
    /\ Client.codec_calls (fst (Client.save_data merge split isoformat write w))
       = Client.codec_calls w
           ++ [(Client.export_path isoformat (Client.data_dir (Client.self w))
                  (Client.starttime first) (Client.endtime last), export_stream)].
Proof.
  intros Hm Hne.
  destruct (time_span export_stream Hne) as (first & last & Hf & Hl & Hmin & Hmax & Hall).
  exists first, last. repeat split; try assumption; try apply Hall; try assumption.
  exact (save_data_codec_call _ _ _ _ _ _ _ _ Hm Hmin Hmax).
Qed.

Lemma save_data_names_file_by_time_span_witness :
  let w := Sample.world_of Sample.client_two_batches in
  exists first last,
    first ∈ [Sample.join Sample.remapped1 Sample.remapped2]
    /\ last ∈ [Sample.join Sample.remapped1 Sample.remapped2]
    /\ Client.codec_calls
         (fst (Client.save_data Sample.merge Sample.split Sample.isoformat
                 (Sample.write 1) w))
       = Client.codec_calls w
           ++ [(Client.export_path Sample.isoformat (Client.data_dir (Client.self w))
                  (Client.starttime first) (Client.endtime last),
                [Sample.join Sample.remapped1 Sample.remapped2])].
Proof.
  intros w.
  destruct (save_data_names_file_by_time_span
              Sample.merge Sample.split Sample.isoformat (Sample.write 1) w
              [Sample.join Sample.remapped1 Sample.remapped2] eq_refl)
    as (first & last & Hf & Hl & _ & Hcall).
  - discriminate.
  - exists first, last. repeat split; assumption.
Defined.

(** X25.  Receive path and write cycle together: after any sequence of
    [on_data] calls on a client with an empty buffer, the write cycle hands
    the codec the merge of exactly the accepted batches, rewritten and in
    order of arrival, and leaves the buffer empty. *)
Theorem on_data_then_save_data
        (merge : Client.Stream -> result Client.Stream)
        (split : Client.Stream -> Client.Stream)
        (isoformat : Client.UTCDateTime -> string)
        (write : gset string -> string -> Client.Stream -> gset string * option Exn)
        (w : Client.world) (traces : list Client.Trace)
        (export_stream : Client.Stream) (cur_start cur_end : Client.UTCDateTime) :
  Client.stream (Client.self w) = [] ->
  merge (List.concat (List.map (ClientMore.accepted
                                  (Client.recorder_map (Client.self w))) traces))
  = Ok export_stream ->
  py_min (List.map Client.starttime export_stream) = Ok cur_start ->
  py_max (List.map Client.endtime export_stream) = Ok cur_end ->
  let received :=
    {| Client.self := ClientMore.deliver traces (Client.self w);
       Client.files := Client.files w; Client.codec_calls := Client.codec_calls w |} in
  let w' := fst (Client.save_data merge split isoformat write received) in
  Client.codec_calls w'
  = Client.codec_calls w
      ++ [(Client.export_path isoformat (Client.data_dir (Client.self w))
             cur_start cur_end, export_stream)]
  /\ Client.stream (Client.self w') = [].
Proof.
  intros Hempty Hm Hmin Hmax received w'. subst w'.
  destruct (deliver_effect traces (Client.self w)) as (Hs & _ & Hd).
  rewrite Hempty in Hs. cbn [app] in Hs.
  assert (Hm' : merge (Client.stream (Client.self received)) = Ok export_stream).
  { cbn [received Client.self]. rewrite Hs. exact Hm. }
  split.
  - rewrite (save_data_codec_call _ _ _ _ _ _ _ _ Hm' Hmin Hmax).
    cbn [received Client.self Client.codec_calls]. rewrite Hd. reflexivity.
  - apply save_data_client.
Qed.

Lemma on_data_then_save_data_witness :
  let w := Sample.world_of Sample.client in
  let received :=
    {| Client.self := ClientMore.deliver [Sample.batch1; Sample.stray; Sample.batch2]
                        (Client.self w);
       Client.files := Client.files w; Client.codec_calls := Client.codec_calls w |} in
  Client.codec_calls
    (fst (Client.save_data Sample.merge Sample.split Sample.isoformat (Sample.write 1)
            received))
  = [] ++ [(Client.export_path Sample.isoformat "/data/mseed"
              1667476800000000000 1667476822000000000,
            [Sample.join Sample.remapped1 Sample.remapped2])].
Proof.
  intros w received.
  exact (proj1 (on_data_then_save_data
                  Sample.merge Sample.split Sample.isoformat (Sample.write 1) w
                  [Sample.batch1; Sample.stray; Sample.batch2]
                  [Sample.join Sample.remapped1 Sample.remapped2]
                  1667476800000000000 1667476822000000000
                  eq_refl eq_refl eq_refl eq_refl)).
Defined.
